(** * rq: a fluent HTTP request builder with retries, middleware and interceptors

    A shallow embedding of the Go package [rq] (github.com/k64z/rq): the retry
    engine ([DoWithRetry], the backoff functions), the request builder and its
    execution ([DoContext]), the middleware chain, the interceptor transport
    and the response accessors, followed by the properties proved about them.

    Conventions.
    - [time.Duration] and [int] are 64-bit signed integers: they are carried
      as [Z], and every operation of the source that can wrap is wrapped with
      [wrap64].
    - [float64] is Rocq's primitive binary64 [float]; the conversions between
      [int64] and [float64] are written out below.
    - A Go pointer that may be nil is an [option]; a nil dereference or a call
      of a nil function value is the [Panic] outcome of the monad [M].
    - Everything the package reaches outside itself (net/http, net/url,
      encoding/json, math/rand, the clock, the file system) is either a field
      of the class [Externals] or an event appended to the trace. *)

From Stdlib Require Import Floats.PrimFloat.
From Stdlib Require Floats.FloatOps Floats.SpecFloat.
From Stdlib Require Numbers.Cyclic.Int63.Uint63.
From Stdlib Require Import ZArith List Bool Lia.
From stdpp Require Import base option list gmap strings pretty.

Local Open Scope Z_scope.

(** ** Machine integers and floats *)

Definition int64_min : Z := - 2 ^ 63.
Definition int64_max : Z := 2 ^ 63 - 1.

(** Two's complement wrap-around of a 64-bit signed result. *)
Definition wrap64 (z : Z) : Z := (z + 2 ^ 63) mod 2 ^ 64 - 2 ^ 63.

Definition in_int64 (z : Z) : bool := (int64_min <=? z) && (z <=? int64_max).

(** [time.Duration]: nanoseconds in an int64. *)
Definition Duration := Z.

Definition Nanosecond : Duration := 1.
Definition Microsecond : Duration := 1000 * Nanosecond.
Definition Millisecond : Duration := 1000 * Microsecond.
Definition Second : Duration := 1000 * Millisecond.

Abbreviation float64 := PrimFloat.float.

(** [float64(z)] for an int64 [z]: the nearest binary64 value. *)
Definition float64_of_int64 (z : Z) : float64 :=
  if z =? int64_min then PrimFloat.opp (FloatOps.Z.ldexp PrimFloat.one 63)
  else if z <? 0 then PrimFloat.opp (PrimFloat.of_uint63 (Uint63.of_Z (- z)))
  else PrimFloat.of_uint63 (Uint63.of_Z z).

(** The integer part (towards zero) of a finite float, as an unbounded
    integer; [None] for NaN and the infinities. *)
Definition float64_trunc (f : float64) : option Z :=
  match FloatOps.Prim2SF f with
  | SpecFloat.S754_zero _ => Some 0
  | SpecFloat.S754_finite s m e =>
      let mag := match e with
                 | Z0 => Zpos m
                 | Zpos p => Z.shiftl (Zpos m) (Zpos p)
                 | Zneg p => Z.shiftr (Zpos m) (Zpos p)
                 end in
      Some (if s then - mag else mag)
  | _ => None
  end.

(** [int64(f)] and [time.Duration(f)] for a float64 [f]: truncation towards
    zero. Go leaves the result of an out-of-range conversion to the
    implementation; amd64 yields the minimal int64, which is what is taken
    here. *)
Definition int64_of_float64 (f : float64) : Z :=
  match float64_trunc f with
  | Some z => if in_int64 z then z else int64_min
  | None => int64_min
  end.

(** The float64 constant [0.3]: the binary64 value nearest to 3/10. *)
Definition float64_0_3 : float64 := 0x1.3333333333333p-2%float.

(** ** math.Pow on integral exponents

    [ExponentialBackoff] calls [math.Pow(multiplier, float64(attempt))]: the
    exponent is always an integral float. The function below follows the Go
    library on such exponents: its special cases, then square-and-multiply on
    the mantissa and exponent of [x] (for an integral [y] the fractional part
    given by [Modf] is zero, so the library's Exp/Log step is not taken). *)

Definition isOddInt (y : float64) : bool :=
  if PrimFloat.leb (FloatOps.Z.ldexp PrimFloat.one 53) (PrimFloat.abs y) then false
  else match float64_trunc y with
       | Some z => Z.odd z
       | None => false
       end.

(** The loop [for i := int64(yi); i != 0; i >>= 1] over the binary digits of
    a positive [i]; the accumulated answer is [a1 * 2^ae]. *)
Fixpoint pow_loop (i : positive) (a1 : float64) (ae : Z) (x1 : float64) (xe : Z)
  : float64 * Z :=
  if (xe <? - 4096) || (4096 <? xe) then (a1, ae + xe)
  else
    let '(a1, ae) :=
      if Z.odd (Zpos i) then (PrimFloat.mul a1 x1, ae + xe) else (a1, ae) in
    let x1 := PrimFloat.mul x1 x1 in
    let xe := Z.shiftl xe 1 in
    let '(x1, xe) :=
      if PrimFloat.ltb x1 0.5%float then (PrimFloat.add x1 x1, xe - 1) else (x1, xe) in
    match i with
    | xH => (a1, ae)
    | xO i' | xI i' => pow_loop i' a1 ae x1 xe
    end.

Definition math_Pow (x y : float64) : float64 :=
  if PrimFloat.eqb y PrimFloat.zero || PrimFloat.eqb x PrimFloat.one then PrimFloat.one
  else if PrimFloat.eqb y PrimFloat.one then x
  else if PrimFloat.is_nan x || PrimFloat.is_nan y then PrimFloat.nan
  else if PrimFloat.eqb x PrimFloat.zero then
    if PrimFloat.ltb y PrimFloat.zero then
      if PrimFloat.get_sign x && isOddInt y then PrimFloat.neg_infinity
      else PrimFloat.infinity
    else
      if PrimFloat.get_sign x && isOddInt y then x else PrimFloat.zero
  else if PrimFloat.is_infinity y then
    if PrimFloat.eqb x (PrimFloat.opp PrimFloat.one) then PrimFloat.one
    else if Bool.eqb (PrimFloat.ltb (PrimFloat.abs x) PrimFloat.one)
                     (PrimFloat.ltb PrimFloat.zero y)
         then PrimFloat.zero
         else PrimFloat.infinity
  else if PrimFloat.is_infinity x then
    if PrimFloat.ltb x PrimFloat.zero then
      (* Pow(1/x, -y) with 1/x = -0 *)
      if PrimFloat.ltb PrimFloat.zero y then
        if isOddInt y then PrimFloat.neg_infinity else PrimFloat.infinity
      else
        if isOddInt y then PrimFloat.neg_zero else PrimFloat.zero
    else
      if PrimFloat.ltb y PrimFloat.zero then PrimFloat.zero else PrimFloat.infinity
  else
    let yi := PrimFloat.abs y in
    if PrimFloat.leb (FloatOps.Z.ldexp PrimFloat.one 63) yi then
      if PrimFloat.eqb x (PrimFloat.opp PrimFloat.one) then PrimFloat.one
      else if Bool.eqb (PrimFloat.ltb (PrimFloat.abs x) PrimFloat.one)
                       (PrimFloat.ltb PrimFloat.zero y)
           then PrimFloat.zero
           else PrimFloat.infinity
    else
      let '(x1, xe) := FloatOps.Z.frexp x in
      let '(a1, ae) :=
        match int64_of_float64 yi with
        | Zpos i => pow_loop i PrimFloat.one 0 x1 xe
        | _ => (PrimFloat.one, 0)
        end in
      if PrimFloat.ltb y PrimFloat.zero
      then FloatOps.Z.ldexp (PrimFloat.div PrimFloat.one a1) (- ae)
      else FloatOps.Z.ldexp a1 ae.

(** ** Backoff functions *)

(** [ExponentialBackoff(base, multiplier, maxDelay)(attempt)]. The power is
    converted to a [time.Duration] (an integer) before it is multiplied with
    [base], and the product is an int64 product. *)
Definition ExponentialBackoff (base : Duration) (multiplier : float64)
    (maxDelay : Duration) : Z -> Duration :=
  fun attempt =>
    let delay :=
      wrap64 (base * int64_of_float64 (math_Pow multiplier (float64_of_int64 attempt))) in
    if delay >? maxDelay then maxDelay else delay.

Definition LinearBackoff (base increment maxDelay : Duration) : Z -> Duration :=
  fun attempt =>
    let delay := wrap64 (base + wrap64 (increment * attempt)) in
    if delay >? maxDelay then maxDelay else delay.

Definition ConstantBackoff (delay : Duration) : Z -> Duration :=
  fun _ => delay.

(** ** Errors, byte strings, readers *)

(** An error value, identified by its message; [fmt.Errorf("p: %w", e)]
    is [p ++ e]. A nil error is [None]. *)
Definition error := string.

Definition bytes := list Byte.byte.

Definition http_Header := gmap string (list string).
Definition url_Values := gmap string (list string).

(** An [io.Reader] handed to the builder as a request body: what
    [io.ReadAll] gets out of it, and the error it ends with, if any. *)
Record Reader := mkReader {
  rd_data : bytes;
  rd_err : option error
}.

Definition bytes_NewReader (b : bytes) : Reader := mkReader b None.
Definition strings_NewReader (s : string) : Reader :=
  mkReader (String.list_byte_of_string s) None.
Definition io_ReadAll (rd : Reader) : bytes * option error := (rd_data rd, rd_err rd).

(** The body of an [http.Response]: a stream that is read once and closed.
    [rc_id] names the stream in the trace. *)
Record ReadCloser := mkReadCloser {
  rc_id : nat;
  rc_data : bytes;
  rc_err : option error
}.

(** ** Contexts

    A [context.Context] is used by the package in two ways: it is handed to
    net/http, and the retry loop races its [Done] channel against a timer. For
    the [k]-th such race of a run, with a timer of [d], [ctx_Done k d] is
    [Some cause] when [Done] is closed first ([cause] is then [ctx.Err()]) and
    [None] when the timer fires first. *)
Record Context := mkContext {
  ctx_Done : nat -> Duration -> option error
}.

Definition context_Background : Context := mkContext (fun _ _ => None).

(** ** net/http values *)

(** [http.Request], the wire request. *)
Record http_Request := mk_http_Request {
  req_ctx : Context;
  req_Method : string;
  req_URL : string;
  req_Header : http_Header;
  req_Body : option Reader
}.

(** [http.Response]. *)
Record http_Response := mk_http_Response {
  StatusCode : Z;
  hr_Header : http_Header;
  hr_Body : ReadCloser
}.

(** An [http.RoundTripper] foreign to the package, given by its answers: the
    first argument is the number of round trips it has served before. The
    transport is taken to keep the contract of [http.RoundTripper]: it
    answers with a response that has a body, or with an error. *)
Definition RoundTripper := nat -> http_Request -> http_Response + error.

(** [http.Client]; the cookie jar and the redirect policy are named, since
    only their presence matters here. *)
Record http_Client := mk_http_Client {
  Transport : option RoundTripper;
  CheckRedirect : option string;
  Jar : option string;
  cl_Timeout : Duration
}.

(** [defaultClient] of client.go. *)
Definition defaultClient : http_Client := mk_http_Client None None None (30 * Second).

(** [url.URL], as far as the package looks into it. *)
Record url_URL := mk_url_URL {
  Scheme : string;
  Hostname : string;
  Port : string;
  User : option (string * option string);
  RawQuery : string;
  url_rest : string
}.

(** ** Responses (rq.go) *)

(** [Response]: the embedded [http.Response] (nil when no exchange produced
    one), the buffered body, and the error. *)
Record Response := mkResponse {
  resp_Response : option http_Response;
  resp_body : bytes;
  resp_err : option error
}.

(** [&Response{err: e}]. *)
Definition errResponse (e : error) : Response := mkResponse None [] (Some e).

(** ** The trace, and the monad of effects and panics *)

Inductive Event : Type :=
| EvAttempt (attempt : Z) (resp : Response)
    (* ghost: r.DoContext(ctx) of iteration [attempt] of the retry loop returned [resp] *)
| EvDo (c : http_Client) (req : http_Request)   (* client.Do(req) *)
| EvRoundTrip (req : http_Request)         (* base.RoundTrip(req) *)
| EvClose (id : nat)                      (* Body.Close() *)
| EvRand                                  (* rand.Float64() *)
| EvTimer (d : Duration)                  (* the timer of time.After(d) fired *)
| EvDone (d : Duration)                   (* ctx.Done() won against time.After(d) *)
| EvPrintf (line : string)                (* logger.Printf *)
| EvUnmarshal (data : bytes)              (* json.Unmarshal *)
| EvWriteFile (name : string) (data : bytes). (* os.WriteFile *)

Definition Trace := list Event.

Inductive result (A : Type) : Type :=
| Ret (a : A) (w : Trace)
| Panic (msg : string) (w : Trace).
Arguments Ret {A} a w.
Arguments Panic {A} msg w.

Definition M (A : Type) : Type := Trace -> result A.

Definition ret {A} (a : A) : M A := fun w => Ret a w.
Definition bind {A B} (m : M A) (k : A -> M B) : M B :=
  fun w => match m w with
           | Ret a w' => k a w'
           | Panic msg w' => Panic msg w'
           end.
Definition panic {A} (msg : string) : M A := fun w => Panic msg w.
Definition emit (e : Event) : M unit := fun w => Ret tt (w ++ [e]).
Definition get_trace : M Trace := fun w => Ret w w.

Definition trace_of {A} (res : result A) : Trace :=
  match res with Ret _ w | Panic _ w => w end.
Definition value_of {A} (res : result A) : option A :=
  match res with Ret a _ => Some a | Panic _ _ => None end.

Notation "'let*' x ':=' c1 'in' c2" := (bind c1 (fun x => c2))
  (at level 10, x pattern, c1 at level 100, c2 at level 200).

Definition nil_deref : string := "invalid memory address or nil pointer dereference".

Definition is_EvAttempt (e : Event) : bool := match e with EvAttempt _ _ => true | _ => false end.
Definition is_EvDo (e : Event) : bool := match e with EvDo _ _ => true | _ => false end.
Definition is_EvRoundTrip (e : Event) : bool := match e with EvRoundTrip _ => true | _ => false end.
Definition is_EvRand (e : Event) : bool := match e with EvRand => true | _ => false end.
Definition is_EvClose (e : Event) : bool := match e with EvClose _ => true | _ => false end.
Definition is_EvDone (e : Event) : bool := match e with EvDone _ => true | _ => false end.
Definition is_wait (e : Event) : bool :=
  match e with EvTimer _ | EvDone _ => true | _ => false end.

Definition count (p : Event -> bool) (w : Trace) : nat := length (List.filter p w).

(** The delays of the timers that fired, in order: the waits that were
    waited in full. *)
Fixpoint waited (w : Trace) : list Duration :=
  match w with
  | [] => []
  | EvTimer d :: w' => d :: waited w'
  | _ :: w' => waited w'
  end.

(** The delays of all the timers that were started, whether they fired or
    the context was cancelled first. *)
Fixpoint timers (w : Trace) : list Duration :=
  match w with
  | [] => []
  | EvTimer d :: w' | EvDone d :: w' => d :: timers w'
  | _ :: w' => timers w'
  end.

(** ** Requests (rq.go) *)

Definition Validator := Response -> option error.

(** [Request], the builder. validation.go appends to a field [validators]
    that the struct of rq.go does not list; it is carried here so that
    [Validate] can be written down. *)
Record Request := mkRequest {
  client : option http_Client;
  method : string;
  url : string;
  headers : http_Header;
  queryParams : url_Values;
  body : option Reader;
  timeout : Duration;
  validators : list Validator;
  err : option error
}.

Definition with_client (c : option http_Client) (r : Request) : Request :=
  mkRequest c (method r) (url r) (headers r) (queryParams r) (body r) (timeout r)
            (validators r) (err r).
Definition with_method (m : string) (r : Request) : Request :=
  mkRequest (client r) m (url r) (headers r) (queryParams r) (body r) (timeout r)
            (validators r) (err r).
Definition with_url (u : string) (r : Request) : Request :=
  mkRequest (client r) (method r) u (headers r) (queryParams r) (body r) (timeout r)
            (validators r) (err r).
Definition with_headers (h : http_Header) (r : Request) : Request :=
  mkRequest (client r) (method r) (url r) h (queryParams r) (body r) (timeout r)
            (validators r) (err r).
Definition with_queryParams (q : url_Values) (r : Request) : Request :=
  mkRequest (client r) (method r) (url r) (headers r) q (body r) (timeout r)
            (validators r) (err r).
Definition with_body (b : option Reader) (r : Request) : Request :=
  mkRequest (client r) (method r) (url r) (headers r) (queryParams r) b (timeout r)
            (validators r) (err r).
Definition with_timeout (t : Duration) (r : Request) : Request :=
  mkRequest (client r) (method r) (url r) (headers r) (queryParams r) (body r) t
            (validators r) (err r).
Definition with_validators (vs : list Validator) (r : Request) : Request :=
  mkRequest (client r) (method r) (url r) (headers r) (queryParams r) (body r) (timeout r)
            vs (err r).
Definition with_err (e : option error) (r : Request) : Request :=
  mkRequest (client r) (method r) (url r) (headers r) (queryParams r) (body r) (timeout r)
            (validators r) e.

(** [ProxyConfig] of proxy.go. *)
Record ProxyConfig := mkProxyConfig {
  pc_Type : string;
  pc_Host : string;
  pc_Port : string;
  pc_Username : string;
  pc_Password : string
}.

(** ** What the package calls outside itself *)

Class Externals := {
  (** the values handed to encoding/json *)
  any : Type;
  url_Parse : string -> url_URL + error;
  url_String : url_URL -> string;
  values_Encode : url_Values -> string;
  strconv_Quote : string -> string;
  CanonicalMIMEHeaderKey : string -> string;
  http_NewRequestWithContext :
    Context -> string -> string -> option Reader -> http_Request + error;
  (** [client.Do(req)]: the answer to the [k]-th exchange of the run *)
  client_Do : nat -> http_Client -> http_Request -> http_Response + error;
  http_DefaultTransport : RoundTripper;
  (** the [k]-th draw of [rand.Float64()], in [0, 1) *)
  rand_Float64 : nat -> float64;
  json_Marshal : any -> bytes + error;
  (** [json.Unmarshal(data, v)]: the target after the call, and the error *)
  json_Unmarshal : bytes -> any -> any * option error;
  base64_EncodeToString : bytes -> string;
  os_WriteFile : string -> bytes -> option error;
  (** the type assertion of [client.Transport] to the net/http transport succeeds *)
  is_http_Transport : RoundTripper -> bool;
  (** [config.CreateTransport(base)] of proxy.go, over net/http and
      x/net/proxy: taken as given *)
  CreateTransport : ProxyConfig -> option RoundTripper -> RoundTripper + error
}.

Section Package.
Context `{Ext : Externals}.

(** [New()]. *)
Definition New : Request :=
  mkRequest (Some defaultClient) "GET" "" ∅ ∅ None 0 [] None.

(** [h.Add(key, value)] and [h.Set(key, value)] of [http.Header]. *)
Definition Header_Add (key value : string) (h : http_Header) : http_Header :=
  let k := CanonicalMIMEHeaderKey key in
  <[k := default [] (h !! k) ++ [value]]> h.
Definition Header_Set (key value : string) (h : http_Header) : http_Header :=
  <[CanonicalMIMEHeaderKey key := [value]]> h.

(** [v.Add(key, value)] and [v.Set(key, value)] of [url.Values]. *)
Definition Values_Add (key value : string) (v : url_Values) : url_Values :=
  <[key := default [] (v !! key) ++ [value]]> v.
Definition Values_Set (key value : string) (v : url_Values) : url_Values :=
  <[key := [value]]> v.

Definition poisoned (r : Request) : bool :=
  match err r with Some _ => true | None => false end.

Definition Method (m : string) (r : Request) : Request :=
  if poisoned r then r else with_method m r.

Definition URL (urlStr : string) (r : Request) : Request :=
  if poisoned r then r else with_url urlStr r.

Definition Client (c : option http_Client) (r : Request) : Request :=
  if poisoned r then r else with_client c r.

Definition Timeout (t : Duration) (r : Request) : Request :=
  if poisoned r then r else with_timeout t r.

Definition Header (key value : string) (r : Request) : Request :=
  if poisoned r then r else with_headers (Header_Add key value (headers r)) r.

(** [for k, v := range headers { r.headers.Set(k, v) }] *)
Definition Headers (hs : gmap string string) (r : Request) : Request :=
  if poisoned r then r
  else with_headers (map_fold (fun k v h => Header_Set k v h) (headers r) hs) r.

Definition QueryParam (key value : string) (r : Request) : Request :=
  if poisoned r then r else with_queryParams (Values_Add key value (queryParams r)) r.

Definition QueryParams (ps : gmap string string) (r : Request) : Request :=
  if poisoned r then r
  else with_queryParams (map_fold (fun k v q => Values_Set k v q) (queryParams r) ps) r.

(** *** body.go: request bodies *)

Definition Body (b : option Reader) (r : Request) : Request :=
  if poisoned r then r else with_body b r.

Definition BodyString (b : string) (r : Request) : Request :=
  if poisoned r then r else with_body (Some (strings_NewReader b)) r.

Definition BodyBytes (b : bytes) (r : Request) : Request :=
  if poisoned r then r else with_body (Some (bytes_NewReader b)) r.

Definition BodyJSON (v : any) (r : Request) : Request :=
  if poisoned r then r
  else match json_Marshal v with
       | inr e => with_err (Some ("failed to marshal JSON: " +:+ e)) r
       | inl data =>
           with_headers (Header_Set "Content-Type" "application/json" (headers r))
             (with_body (Some (bytes_NewReader data)) r)
       end.

Definition BodyForm (data : url_Values) (r : Request) : Request :=
  if poisoned r then r
  else with_headers
         (Header_Set "Content-Type" "application/x-www-form-urlencoded" (headers r))
         (with_body (Some (strings_NewReader (values_Encode data))) r).

(** *** auth.go *)

(** An [AuthProvider], by its method [Apply]. *)
Definition AuthProvider := Request -> Request.

Definition basicAuth (username password : string) : string :=
  base64_EncodeToString (String.list_byte_of_string (username +:+ ":" +:+ password)).

Definition Auth (authType credentials : string) (r : Request) : Request :=
  if poisoned r then r
  else with_headers (Header_Set "Authorization" (authType +:+ " " +:+ credentials) (headers r)) r.

Definition WithAuth (provider : AuthProvider) (r : Request) : Request :=
  if poisoned r then r else provider r.

Definition BasicAuth (username password : string) (r : Request) : Request :=
  if poisoned r then r
  else with_headers
         (Header_Set "Authorization" ("Basic " +:+ basicAuth username password) (headers r)) r.

Definition BearerToken (token : string) (r : Request) : Request :=
  if poisoned r then r
  else with_headers (Header_Set "Authorization" ("Bearer " +:+ token) (headers r)) r.

(** *** proxy.go *)

Definition ProxyFromURL (proxyURL : string) : ProxyConfig + error :=
  match url_Parse proxyURL with
  | inr e => inr ("invalid proxy URL: " +:+ e)
  | inl u =>
      let '(username, password) :=
        match User u with
        | None => ("", "")
        | Some (name, None) => (name, "")
        | Some (name, Some pw) => (name, pw)
        end in
      let port :=
        if String.eqb (Port u) "" then
          if String.eqb (Scheme u) "http" || String.eqb (Scheme u) "https" then "8080"
          else if String.eqb (Scheme u) "socks5" then "1080"
          else ""
        else Port u in
      inl (mkProxyConfig (Scheme u) (Hostname u) port username password)
  end.

Definition getTransport (c : http_Client) : option RoundTripper :=
  match Transport c with
  | None => None
  | Some t => if is_http_Transport t then Some t else None
  end.

(** [Proxy(config)]: the new client copies the redirect policy, the jar and
    the timeout of the old one, and its transport is built from
    [getTransport] of the new client. *)
Definition Proxy (config : ProxyConfig) (r : Request) : Request :=
  if poisoned r then r
  else
    let c := match client r with
             | None => mk_http_Client None None None 0
             | Some c => mk_http_Client None (CheckRedirect c) (Jar c) (cl_Timeout c)
             end in
    match CreateTransport config (getTransport c) with
    | inr e => with_err (Some ("configure proxy: " +:+ e)) r
    | inl transport =>
        with_client
          (Some (mk_http_Client (Some transport) (CheckRedirect c) (Jar c) (cl_Timeout c))) r
    end.

Definition ProxyURL (proxyURL : string) (r : Request) : Request :=
  if poisoned r then r
  else match ProxyFromURL proxyURL with
       | inr e => with_err (Some e) r
       | inl config => Proxy config r
       end.

(** *** validation.go *)

Definition Validate (vs : list Validator) (r : Request) : Request :=
  if poisoned r then r else with_validators (validators r ++ vs) r.

(** *** The builder operations, as data *)

Inductive BuilderOp : Type :=
| OpMethod (m : string)
| OpURL (urlStr : string)
| OpClient (c : option http_Client)
| OpTimeout (t : Duration)
| OpHeader (key value : string)
| OpHeaders (hs : gmap string string)
| OpQueryParam (key value : string)
| OpQueryParams (ps : gmap string string)
| OpBody (b : option Reader)
| OpBodyString (b : string)
| OpBodyBytes (b : bytes)
| OpBodyJSON (v : any)
| OpBodyForm (data : url_Values)
| OpAuth (authType credentials : string)
| OpWithAuth (provider : AuthProvider)
| OpBasicAuth (username password : string)
| OpBearerToken (token : string)
| OpProxy (config : ProxyConfig)
| OpProxyURL (proxyURL : string)
| OpValidate (vs : list Validator).

Definition run_op (op : BuilderOp) (r : Request) : Request :=
  match op with
  | OpMethod m => Method m r
  | OpURL u => URL u r
  | OpClient c => Client c r
  | OpTimeout t => Timeout t r
  | OpHeader k v => Header k v r
  | OpHeaders hs => Headers hs r
  | OpQueryParam k v => QueryParam k v r
  | OpQueryParams ps => QueryParams ps r
  | OpBody b => Body b r
  | OpBodyString b => BodyString b r
  | OpBodyBytes b => BodyBytes b r
  | OpBodyJSON v => BodyJSON v r
  | OpBodyForm d => BodyForm d r
  | OpAuth t c => Auth t c r
  | OpWithAuth p => WithAuth p r
  | OpBasicAuth u p => BasicAuth u p r
  | OpBearerToken t => BearerToken t r
  | OpProxy c => Proxy c r
  | OpProxyURL u => ProxyURL u r
  | OpValidate vs => Validate vs r
  end.

(** *** Middleware *)

(** A [Middleware] takes the builder and returns a builder; it may log. *)
Definition Middleware := Request -> M Request.

(** [r.Use(middleware...)]: [for _, m := range middleware { r = m(r) }]. *)
Fixpoint Use (middleware : list Middleware) (r : Request) : M Request :=
  match middleware with
  | [] => ret r
  | m :: rest => let* r' := m r in Use rest r'
  end.

(** [Chain(middleware...)]: the returned closure runs the same loop. *)
Definition Chain (middleware : list Middleware) : Middleware :=
  fun r =>
    (fix loop (ms : list Middleware) (r : Request) : M Request :=
       match ms with
       | [] => ret r
       | m :: rest => let* r' := m r in loop rest r'
       end) middleware r.

(** A [*log.Logger] is known by its prefix. *)
Definition LoggingMiddleware (logger : option string) : Middleware :=
  fun r =>
    match logger with
    | Some prefix =>
        let* _ := emit (EvPrintf (prefix +:+ method r +:+ " " +:+ url r)) in ret r
    | None => ret r
    end.

Definition UserAgentMiddleware (userAgent : string) : Middleware :=
  fun r => ret (Header "User-Agent" userAgent r).

Definition TimeoutMiddleware (t : Duration) : Middleware :=
  fun r => ret (Timeout t r).

Definition HeadersMiddleware (hs : gmap string string) : Middleware :=
  fun r => ret (Headers hs r).

(** *** rq.go: execution *)

(** [client.Do(req)], for a client pointer that may be nil. *)
Definition do_exchange (c : option http_Client) (req : http_Request)
  : M (http_Response + error) :=
  match c with
  | None => panic nil_deref
  | Some c =>
      let* w := get_trace in
      let* _ := emit (EvDo c req) in
      ret (client_Do (count is_EvDo w) c req)
  end.

(** The first half of [DoContext]: the wire request built from the builder
    (URL, query, method, body, a copy of the headers), or the error that is
    wrapped into the response. *)
Definition wire_request (r : Request) (ctx : Context) : http_Request + error :=
  match url_Parse (url r) with
  | inr e => inr ("invalid URL: " +:+ strconv_Quote (url r) +:+ ": " +:+ e)
  | inl u =>
      let u := if (0 <? size (queryParams r))%nat
               then mk_url_URL (Scheme u) (Hostname u) (Port u) (User u)
                               (values_Encode (queryParams r)) (url_rest u)
               else u in
      match http_NewRequestWithContext ctx (method r) (url_String u) (body r) with
      | inr e => inr ("failed to create request: " +:+ e)
      | inl req =>
          inl (mk_http_Request (req_ctx req) (req_Method req) (req_URL req)
                               (headers r) (req_Body req))
      end
  end.

Definition DoContext (r : Request) (ctx : Context) : M Response :=
  match err r with
  | Some e => ret (errResponse e)
  | None =>
  match wire_request r ctx with
  | inr e => ret (errResponse e)
  | inl req =>
  let* c :=
    (if 0 <? timeout r then
       match client r with
       | None => panic nil_deref
       | Some c0 => ret (Some (mk_http_Client (Transport c0) None None (timeout r)))
       end
     else ret (client r)) in
  let* res := do_exchange c req in
  match res with
  | inr e => ret (errResponse ("request failed: " +:+ e))
  | inl resp =>
      let '(data, rerr) := (rc_data (hr_Body resp), rc_err (hr_Body resp)) in
      let* _ := emit (EvClose (rc_id (hr_Body resp))) in
      match rerr with
      | Some e => ret (mkResponse (Some resp) [] (Some ("failed to read body: " +:+ e)))
      | None => ret (mkResponse (Some resp) data None)
      end
  end end end.


(** *** The retry engine *)

Record RetryConfig := mkRetryConfig {
  MaxAttempts : Z;
  Delay : Duration;
  MaxDelay : Duration;
  Multiplier : float64;
  Jitter : bool;
  (** a func value, nil is [None]; the predicate answers, or panics ([None]) *)
  RetryIf : option (Response -> option bool)
}.

(** [resp.StatusCode] goes through the embedded pointer. *)
Definition defaultRetryIf (resp : Response) : option bool :=
  match resp_err resp with
  | Some _ => Some true
  | None =>
      match resp_Response resp with
      | None => None
      | Some h => Some ((500 <=? StatusCode h) || (StatusCode h =? 429))
      end
  end.

Definition DefaultRetryConfig : RetryConfig :=
  mkRetryConfig 3 (100 * Millisecond) (10 * Second) 2%float true (Some defaultRetryIf).

(** [config.RetryIf(resp)] *)
Definition call_RetryIf (config : RetryConfig) (resp : Response) : M bool :=
  match RetryIf config with
  | None => panic nil_deref
  | Some f => match f resp with
              | Some b => ret b
              | None => panic nil_deref
              end
  end.

Definition addJitter (delay : Duration) : M Duration :=
  let* w := get_trace in
  let* _ := emit EvRand in
  let x := rand_Float64 (count is_EvRand w) in
  let jitter :=
    int64_of_float64 (PrimFloat.mul (PrimFloat.mul x (float64_of_int64 delay)) float64_0_3) in
  ret (wrap64 (delay + jitter)).

(** [select { case <-ctx.Done(): ...; case <-time.After(delay): }]:
    [Some cause] when the context wins. *)
Definition select_Done_After (ctx : Context) (delay : Duration) : M (option error) :=
  let* w := get_trace in
  match ctx_Done ctx (count is_wait w) delay with
  | Some cause => let* _ := emit (EvDone delay) in ret (Some cause)
  | None => let* _ := emit (EvTimer delay) in ret None
  end.

(** [if bodyBytes != nil { r.body = bytes.NewReader(bodyBytes) }] *)
Definition replay (bodyBytes : option bytes) (r : Request) : Request :=
  match bodyBytes with
  | Some b => with_body (Some (bytes_NewReader b)) r
  | None => r
  end.

(** [if config.Jitter { delay = addJitter(delay) }] *)
Definition jittered (config : RetryConfig) (delay : Duration) : M Duration :=
  if Jitter config then addJitter delay else ret delay.

(** [resp.err = ctx.Err()] *)
Definition cancelled (resp : Response) (cause : error) : Response :=
  mkResponse (resp_Response resp) (resp_body resp) (Some cause).

(** [delay = time.Duration(float64(delay) * config.Multiplier)], then the
    clamp to [config.MaxDelay]. *)
Definition advance (config : RetryConfig) (delay : Duration) : Duration :=
  let delay :=
    int64_of_float64 (PrimFloat.mul (float64_of_int64 delay) (Multiplier config)) in
  if delay >? MaxDelay config then MaxDelay config else delay.

(** The loop [for attempt := 0; attempt < config.MaxAttempts; attempt++].
    [n] bounds the iterations left; it starts at [MaxAttempts], so the loop
    condition fails no later than [n] runs out, and both ways out return
    [resp]. The [resp] of the source is a pointer that is nil before the
    first attempt. *)
Fixpoint retry_loop (n : nat) (ctx : Context) (config : RetryConfig)
    (bodyBytes : option bytes) (r : Request)
    (attempt : Z) (delay : Duration) (resp : option Response) : M (option Response) :=
  match n with
  | O => ret resp
  | S n' =>
    if negb (attempt <? MaxAttempts config) then ret resp
    else
      let r := replay bodyBytes r in
      let* resp := DoContext r ctx in
      let* _ := emit (EvAttempt attempt resp) in
      let* again := call_RetryIf config resp in
      if negb again then ret (Some resp)
      else if attempt =? MaxAttempts config - 1 then ret (Some resp)
      else
        let* delay := jittered config delay in
        let* done := select_Done_After ctx delay in
        match done with
        | Some cause => ret (Some (cancelled resp cause))
        | None =>
            retry_loop n' ctx config bodyBytes r (attempt + 1) (advance config delay)
                       (Some resp)
        end
  end.

Definition DoWithRetry (r : Request) (ctx : Context) (config : option RetryConfig)
  : M (option Response) :=
  let config := match config with
                | None => DefaultRetryConfig
                | Some c => c
                end in
  match err r with
  | Some e => ret (Some (errResponse e))
  | None =>
      let read :=
        match body r with
        | None => inl None
        | Some rd =>
            match io_ReadAll rd with
            | (_, Some e) => inr e
            | (b, None) => inl (Some b)
            end
        end in
      match read with
      | inr e => ret (Some (errResponse e))
      | inl bodyBytes =>
          retry_loop (Z.to_nat (MaxAttempts config)) ctx config bodyBytes r
                     0 (Delay config) None
      end
  end.

(** *** interceptors.go *)

(** An interceptor may change the value it is handed in place: it returns
    the value after the call together with its error. *)
Definition RequestInterceptor := Context -> http_Request -> http_Request * option error.
Definition ResponseInterceptor := Context -> http_Response -> http_Response * option error.

Record InterceptorTransport := mkInterceptorTransport {
  Base : option RoundTripper;
  t_RequestInterceptor : option RequestInterceptor;
  t_ResponseInterceptor : option ResponseInterceptor
}.

(** [base.RoundTrip(req)] *)
Definition base_RoundTrip (base : RoundTripper) (req : http_Request)
  : M (http_Response + error) :=
  let* w := get_trace in
  let* _ := emit (EvRoundTrip req) in
  ret (base (count is_EvRoundTrip w) req).

(** [(t *InterceptorTransport).RoundTrip(req)]: the response (nil on
    failure) and the error. *)
Definition RoundTrip (t : InterceptorTransport) (req : http_Request)
  : M (option http_Response * option error) :=
  let '(req, e) := match t_RequestInterceptor t with
                   | Some f => f (req_ctx req) req
                   | None => (req, None)
                   end in
  match e with
  | Some e => ret (None, Some e)
  | None =>
      let base := match Base t with
                  | Some b => b
                  | None => http_DefaultTransport
                  end in
      let* res := base_RoundTrip base req in
      match res with
      | inr e => ret (None, Some e)
      | inl resp =>
          let '(resp, e) := match t_ResponseInterceptor t with
                            | Some g => g (req_ctx req) resp
                            | None => (resp, None)
                            end in
          match e with
          | Some e =>
              let* _ := emit (EvClose (rc_id (hr_Body resp))) in
              ret (None, Some e)
          | None => ret (Some resp, None)
          end
      end
  end.

(** *** body.go and rq.go: response accessors *)

Definition Error (r : Response) : option error := resp_err r.

Definition Bytes (r : Response) : bytes * option error :=
  match resp_err r with
  | Some e => ([], Some e)
  | None => (resp_body r, None)
  end.

Definition Response_String (r : Response) : string * option error :=
  match resp_err r with
  | Some e => ("", Some e)
  | None => (String.string_of_list_byte (resp_body r), None)
  end.

(** [r.JSON(v)]: the target [v] after the call, and the error. *)
Definition JSON (r : Response) (v : any) : M (any * option error) :=
  match resp_err r with
  | Some e => ret (v, Some e)
  | None =>
      let* _ := emit (EvUnmarshal (resp_body r)) in
      match json_Unmarshal (resp_body r) v with
      | (v', Some e) => ret (v', Some ("decode JSON: " +:+ e))
      | (v', None) => ret (v', None)
      end
  end.

Definition MustJSON (r : Response) (v : any) : M any :=
  let* res := JSON r v in
  match res with
  | (_, Some e) => panic e
  | (v', None) => ret v'
  end.

Definition BodyReader (r : Response) : option Reader * option error :=
  match resp_err r with
  | Some e => (None, Some e)
  | None => (Some (bytes_NewReader (resp_body r)), None)
  end.

Definition SaveToFile (r : Response) (filename : string) : M (option error) :=
  match resp_err r with
  | Some e => ret (Some e)
  | None =>
      let* _ := emit (EvWriteFile filename (resp_body r)) in
      ret (os_WriteFile filename (resp_body r))
  end.

(** *** rq.go: status of a response *)

Definition IsOK (r : Response) : bool :=
  match resp_err r, resp_Response r with
  | None, Some h => (200 <=? StatusCode h) && (StatusCode h <? 300)
  | _, _ => false
  end.

Definition IsError (r : Response) : bool :=
  match resp_err r, resp_Response r with
  | None, Some h => 400 <=? StatusCode h
  | _, _ => true
  end.

(** [r.StatusCode]: a nil dereference when there is no [http.Response]. *)
Definition get_StatusCode (r : Response) : M Z :=
  match resp_Response r with
  | Some h => ret (StatusCode h)
  | None => panic nil_deref
  end.

(** [%d] of fmt is the decimal notation, which is [pretty] on [Z]. *)
Definition ExpectStatus (r : Response) (status : Z) : M (option error) :=
  match resp_err r with
  | Some e => ret (Some e)
  | None =>
      let* code := get_StatusCode r in
      if negb (code =? status)
      then ret (Some ("expected status " +:+ pretty status +:+ ", got " +:+ pretty code))
      else ret None
  end.

Definition ExpectOK (r : Response) : M (option error) :=
  match resp_err r with
  | Some e => ret (Some e)
  | None =>
      if negb (IsOK r)
      then let* code := get_StatusCode r in
           ret (Some ("expected 2xx status, got " +:+ pretty code))
      else ret None
  end.

(** *** validation.go: combinators

    Over validators that return (a validator of the package panics on a
    response with neither an error nor an [http.Response]). *)

(** [Validate.All(validators...)] *)
Definition Validate_All (vs : list Validator) : Validator :=
  fun r =>
    (fix loop (vs : list Validator) : option error :=
       match vs with
       | [] => None
       | v :: rest =>
           match v r with
           | Some e => Some e
           | None => loop rest
           end
       end) vs.

(** The message [Validate.Any] builds when several validators failed:
    [" [i] err"] for each error, numbered from 1. *)
Fixpoint numbered (i : nat) (errs : list error) : string :=
  match errs with
  | [] => ""
  | e :: rest => " [" +:+ pretty (S i) +:+ "] " +:+ e +:+ numbered (S i) rest
  end.

(** The loop of [Validate.Any] over the validators left, with the errors
    collected so far, and what follows the loop. *)
Fixpoint Any_loop (r : Response) (vs : list Validator) (errs : list error)
  : option error :=
  match vs with
  | [] =>
      match errs with
      | [e] => Some e
      | _ => Some ("all validators failed:" +:+ numbered 0 errs)
      end
  | v :: rest =>
      match v r with
      | None => None
      | Some e => Any_loop r rest (errs ++ [e])
      end
  end.

(** [Validate.Any(validators...)] *)
Definition Validate_Any (vs : list Validator) : Validator :=
  fun r => Any_loop r vs [].

(** [Validate.Not(validator)] *)
Definition Validate_Not (v : Validator) : Validator :=
  fun r =>
    match v r with
    | None => Some "expected validation to fail but it passed"%string
    | Some _ => None
    end.

(** The client [DoContext] hands the wire request to: a fresh one when a
    timeout is set, the client of the request otherwise; [None] when the
    pointer is nil. *)
Definition execution_client (r : Request) : option http_Client :=
  match client r with
  | None => None
  | Some c0 =>
      if 0 <? timeout r then Some (mk_http_Client (Transport c0) None None (timeout r))
      else Some c0
  end.

End Package.

(** ** The runs of the retry loop

    [loop_run ctx config bodyBytes r attempt delay resp w res]: entered with
    the loop variables [attempt], [delay], [resp] and the request [r] in the
    trace [w], the loop ends in [res]. One rule per way through the body of
    the loop. *)

(** What [config.RetryIf(resp)] answers; [None] when the call panics. *)
Definition predicate (config : RetryConfig) (resp : Response) : option bool :=
  match RetryIf config with
  | None => None
  | Some f => f resp
  end.

Inductive loop_run `{Externals} (ctx : Context) (config : RetryConfig)
    (bodyBytes : option bytes)
  : Request -> Z -> Duration -> option Response -> Trace
    -> result (option Response) -> Prop :=
| run_exit r attempt delay resp0 w :
    MaxAttempts config <= attempt ->
    loop_run ctx config bodyBytes r attempt delay resp0 w (Ret resp0 w)
| run_attempt_panics r attempt delay resp0 w msg w1 :
    attempt < MaxAttempts config ->
    DoContext (replay bodyBytes r) ctx w = Panic msg w1 ->
    loop_run ctx config bodyBytes r attempt delay resp0 w (Panic msg w1)
| run_predicate_panics r attempt delay resp0 w resp w1 :
    attempt < MaxAttempts config ->
    DoContext (replay bodyBytes r) ctx w = Ret resp w1 ->
    predicate config resp = None ->
    loop_run ctx config bodyBytes r attempt delay resp0 w
             (Panic nil_deref (w1 ++ [EvAttempt attempt resp]))
| run_stop r attempt delay resp0 w resp w1 b :
    attempt < MaxAttempts config ->
    DoContext (replay bodyBytes r) ctx w = Ret resp w1 ->
    predicate config resp = Some b ->
    b = false \/ attempt = MaxAttempts config - 1 ->
    loop_run ctx config bodyBytes r attempt delay resp0 w
             (Ret (Some resp) (w1 ++ [EvAttempt attempt resp]))
| run_cancelled r attempt delay resp0 w resp w1 delay' w2 cause :
    attempt < MaxAttempts config ->
    DoContext (replay bodyBytes r) ctx w = Ret resp w1 ->
    predicate config resp = Some true ->
    attempt <> MaxAttempts config - 1 ->
    jittered config delay (w1 ++ [EvAttempt attempt resp]) = Ret delay' w2 ->
    ctx_Done ctx (count is_wait w2) delay' = Some cause ->
    loop_run ctx config bodyBytes r attempt delay resp0 w
             (Ret (Some (cancelled resp cause)) (w2 ++ [EvDone delay']))
| run_again r attempt delay resp0 w resp w1 delay' w2 res :
    attempt < MaxAttempts config ->
    DoContext (replay bodyBytes r) ctx w = Ret resp w1 ->
    predicate config resp = Some true ->
    attempt <> MaxAttempts config - 1 ->
    jittered config delay (w1 ++ [EvAttempt attempt resp]) = Ret delay' w2 ->
    ctx_Done ctx (count is_wait w2) delay' = None ->
    loop_run ctx config bodyBytes (replay bodyBytes r) (attempt + 1)
             (advance config delay') (Some resp) (w2 ++ [EvTimer delay']) res ->
    loop_run ctx config bodyBytes r attempt delay resp0 w res.

(** [resp] is the response of the last attempt recorded in [pre]: after it
    there is at most a random draw. *)
Definition last_attempt (pre : list Event) (a : Z) (resp : Response) : Prop :=
  exists pre0 tail,
    pre = pre0 ++ EvAttempt a resp :: tail /\ (tail = [] \/ tail = [EvRand]).

Definition no_EvDone (evs : list Event) : Prop :=
  Forall (fun e => is_EvDone e = false) evs.

(** A run cut short by the context: [evs], the events of the run started in
    [w], end with the wait that the context won; [res] is the response of the
    last attempt with the cause of the cancellation as its error. *)
Definition cut_short (ctx : Context) (w : Trace) (evs : list Event)
    (res : result (option Response)) : Prop :=
  exists pre a resp d cause,
    evs = pre ++ [EvDone d]
    /\ no_EvDone pre
    /\ last_attempt pre a resp
    /\ ctx_Done ctx (count is_wait (w ++ pre)) d = Some cause
    /\ res = Ret (Some (cancelled resp cause)) (w ++ evs)
    /\ count is_EvAttempt pre = S (count is_wait pre).

(** The ways through [DoContext], started in the trace [w], each with its
    result: the request is poisoned; the wire request cannot be built; the
    client is nil; the exchange fails; the body of the response cannot be
    read; the body is read. *)
Inductive DoContext_outcome `{Externals} (r : Request) (ctx : Context) (w : Trace)
  : result Response -> Prop :=
| oc_poisoned e :
    err r = Some e ->
    DoContext_outcome r ctx w (Ret (errResponse e) w)
| oc_unbuildable e :
    err r = None -> wire_request r ctx = inr e ->
    DoContext_outcome r ctx w (Ret (errResponse e) w)
| oc_nil_client req :
    err r = None -> wire_request r ctx = inl req -> client r = None ->
    DoContext_outcome r ctx w (Panic nil_deref w)
| oc_failed req c e :
    err r = None -> wire_request r ctx = inl req -> execution_client r = Some c ->
    client_Do (count is_EvDo w) c req = inr e ->
    DoContext_outcome r ctx w
      (Ret (errResponse ("request failed: " +:+ e)) (w ++ [EvDo c req]))
| oc_unread req c resp e :
    err r = None -> wire_request r ctx = inl req -> execution_client r = Some c ->
    client_Do (count is_EvDo w) c req = inl resp ->
    rc_err (hr_Body resp) = Some e ->
    DoContext_outcome r ctx w
      (Ret (mkResponse (Some resp) [] (Some ("failed to read body: " +:+ e)))
           (w ++ [EvDo c req; EvClose (rc_id (hr_Body resp))]))
| oc_read req c resp :
    err r = None -> wire_request r ctx = inl req -> execution_client r = Some c ->
    client_Do (count is_EvDo w) c req = inl resp ->
    rc_err (hr_Body resp) = None ->
    DoContext_outcome r ctx w
      (Ret (mkResponse (Some resp) (rc_data (hr_Body resp)) None)
           (w ++ [EvDo c req; EvClose (rc_id (hr_Body resp))])).

Definition is_EvTimer (e : Event) : bool :=
  match e with EvTimer _ => true | _ => false end.

(** The responses of the attempts recorded in a trace, in order. *)
Fixpoint outcomes (w : Trace) : list Response :=
  match w with
  | [] => []
  | EvAttempt _ resp :: w' => resp :: outcomes w'
  | _ :: w' => outcomes w'
  end.

(** The builder operations that can set the error of the builder. *)
Definition may_poison `{Ext : Externals} (op : BuilderOp) : bool :=
  match op with
  | OpBodyJSON _ | OpWithAuth _ | OpProxy _ | OpProxyURL _ => true
  | _ => false
  end.

Definition is_EvPrintf (e : Event) : bool :=
  match e with EvPrintf _ => true | _ => false end.

(** A middleware that hands a poisoned request on as it is, and at most
    logs. *)
Definition guarded (m : Middleware) : Prop :=
  forall r w, poisoned r = true ->
    exists evs, m r w = Ret r (w ++ evs) /\ Forall (fun e => is_EvPrintf e = true) evs.

(** The validator accepts the response. *)
Definition passes (r : Response) (v : Validator) : Prop := v r = None.

(** What one [DoContext] may add to the trace: nothing (the request was
    poisoned, could not be built, or the client was nil), one exchange (that
    failed), or one exchange and the closing of the response body. *)
Inductive attempt_events : list Event -> Prop :=
| ae_none : attempt_events []
| ae_failed c req : attempt_events [EvDo c req]
| ae_done c req id : attempt_events [EvDo c req; EvClose id].

(** A middleware without effects, from a function on the builder. *)
Definition pure_middleware (f : Request -> Request) : Middleware := fun r => ret (f r).

(** The nested application [mn (... (m2 (m1 r)))] of effectful middleware:
    each one is handed the request and the trace the one before left. *)
Definition nested (middleware : list Middleware) : Middleware :=
  fold_right (fun (m : Middleware) (k : Middleware) => fun r => bind (m r) k) ret middleware.

(** ** A small concrete world

    Used to run the model on examples: every URL but the empty one parses,
    every wire request can be built, the server is a script from the number
    of earlier exchanges to an answer, and the random draws are given. *)

Definition sim_url_Parse (s : string) : url_URL + error :=
  if String.eqb s "" then inr "empty url" else inl (mk_url_URL "http" s "" None "" "").

Definition sim_Externals (server : nat -> http_Request -> http_Response + error)
    (draw : nat -> float64) : Externals :=
  {| any := string;
     url_Parse := sim_url_Parse;
     url_String := fun u => Scheme u +:+ "://" +:+ Hostname u;
     values_Encode := fun _ => "";
     strconv_Quote := fun s => s;
     CanonicalMIMEHeaderKey := fun s => s;
     http_NewRequestWithContext := fun ctx m u b => inl (mk_http_Request ctx m u ∅ b);
     client_Do := fun k _ req => server k req;
     http_DefaultTransport := server;
     rand_Float64 := draw;
     json_Marshal := fun v => inl (String.list_byte_of_string v);
     json_Unmarshal := fun b _ => (String.string_of_list_byte b, None);
     base64_EncodeToString := String.string_of_list_byte;
     os_WriteFile := fun _ _ => None;
     is_http_Transport := fun _ => true;
     CreateTransport := fun _ _ => inr "no proxy in this world" |}.

(** A server that answers every request with the same status and no body. *)
Definition always (status : Z) : nat -> http_Request -> http_Response + error :=
  fun k _ => inl (mk_http_Response status ∅ (mkReadCloser k [] None)).

(** [Get(urlStr)] *)
Definition Get `{Ext : Externals} (urlStr : string) : Request := URL urlStr (Method "GET" New).

(** A server that always answers 500, and random draws that are all 0.5. *)
Definition busy : Externals := sim_Externals (always 500) (fun _ => 0.5%float).

(** A server that always answers 200. *)
Definition healthy : Externals := sim_Externals (always 200) (fun _ => 0.5%float).

Definition demo_request : Request := Get (Ext := busy) "example.com".

(** The wire request of [demo_request], and the outcome of the exchange
    number [k] with the busy server. *)
Definition demo_wire (ctx : Context) : http_Request :=
  mk_http_Request ctx "GET" "http://example.com" ∅ None.
Definition resp500 (k : nat) : Response :=
  mkResponse (Some (mk_http_Response 500 ∅ (mkReadCloser k [] None))) [] None.

(** Retry configurations used below; all retry on [defaultRetryIf] unless
    said otherwise. *)
Definition config_jitter : RetryConfig :=
  mkRetryConfig 3 (100 * Millisecond) (100 * Millisecond) 2%float true (Some defaultRetryIf).
Definition config_long_first_delay : RetryConfig :=
  mkRetryConfig 3 (200 * Millisecond) (100 * Millisecond) 2%float false (Some defaultRetryIf).
Definition config_no_attempts : RetryConfig :=
  mkRetryConfig 0 (100 * Millisecond) (10 * Second) 2%float false (Some defaultRetryIf).
Definition config_five : RetryConfig :=
  mkRetryConfig 5 (100 * Millisecond) Second 2%float false (Some defaultRetryIf).

(** A context that is cancelled during the first wait. *)
Definition ctx_cancelled_early : Context :=
  mkContext (fun k _ => if (k =? 0)%nat then Some "context canceled"%string else None).

(** A client with a cookie jar and a redirect policy. *)
Definition custom_client : http_Client :=
  mk_http_Client (Some (always 200)) (Some "no redirects"%string) (Some "jar"%string)
                 (5 * Second).

(** An interceptor transport whose request interceptor refuses, and one whose
    response interceptor refuses. *)
Definition refuse_request : InterceptorTransport :=
  mkInterceptorTransport (Some (always 200))
    (Some (fun _ req => (req, Some "request refused"%string))) None.
Definition refuse_response : InterceptorTransport :=
  mkInterceptorTransport (Some (always 200))
    (Some (fun _ req => (req, None)))
    (Some (fun _ resp => (resp, Some "response refused"%string))).

(** A second world: the part of a URL after the first question mark is its
    query, the server greets with a body, the empty value cannot be
    marshalled, and a proxy transport can be built. The transport built from
    no base answers 407, to tell it from the others. *)
Definition question_mark : Ascii.ascii := Ascii.ascii_of_nat 63.

Fixpoint split_query (s : string) : string * string :=
  match s with
  | EmptyString => (EmptyString, EmptyString)
  | String c rest =>
      if Ascii.eqb c question_mark then (EmptyString, rest)
      else let '(h, q) := split_query rest in (String c h, q)
  end.

Definition hello : bytes := String.list_byte_of_string "hello".

Definition greets : nat -> http_Request -> http_Response + error :=
  fun k _ => inl (mk_http_Response 200 ∅ (mkReadCloser k hello None)).

Definition office : Externals :=
  {| any := string;
     url_Parse := fun s =>
       if String.eqb s "" then inr "empty url"%string
       else let '(h, q) := split_query s in inl (mk_url_URL "http" h "" None q "");
     url_String := fun u =>
       Scheme u +:+ "://" +:+ Hostname u
         +:+ (if String.eqb (RawQuery u) "" then "" else "?" +:+ RawQuery u);
     values_Encode := fun v =>
       match v !! "page"%string with Some [p] => "page=" +:+ p | _ => "" end;
     strconv_Quote := fun s => s;
     CanonicalMIMEHeaderKey := fun s => s;
     http_NewRequestWithContext := fun ctx m u b => inl (mk_http_Request ctx m u ∅ b);
     client_Do := fun k _ req => greets k req;
     http_DefaultTransport := greets;
     rand_Float64 := fun _ => 0.5%float;
     json_Marshal := fun v =>
       if String.eqb v "" then inr "unsupported value"%string
       else inl (String.list_byte_of_string v);
     json_Unmarshal := fun b _ => (String.string_of_list_byte b, None);
     base64_EncodeToString := String.string_of_list_byte;
     os_WriteFile := fun _ _ => None;
     is_http_Transport := fun _ => true;
     CreateTransport := fun _ base => inl (default (always 407) base) |}.

(** The greeting of the server to the exchange number [k]. *)
Definition resp_hello (k : nat) : Response :=
  mkResponse (Some (mk_http_Response 200 ∅ (mkReadCloser k hello None))) hello None.

(** A request with a query in its URL and a query parameter. *)
Definition paged_request : Request :=
  QueryParam "page" "2" (URL "example.com?page=1" New).

(** A proxy configuration. *)
Definition demo_proxy : ProxyConfig := mkProxyConfig "http" "proxy.local" "8080" "" "".


(** Three attempts allowed, 1ms between them, the default predicate. *)
Definition config_three : RetryConfig :=
  mkRetryConfig 3 Millisecond Millisecond 2%float false (Some defaultRetryIf).

(** The events of three attempts of [demo_request] against the busy server
    under [config_three]. *)
Definition busy_three_attempts : list Event :=
  [EvDo defaultClient (demo_wire context_Background); EvClose 0; EvAttempt 0 (resp500 0);
   EvTimer Millisecond;
   EvDo defaultClient (demo_wire context_Background); EvClose 1; EvAttempt 1 (resp500 1);
   EvTimer Millisecond;
   EvDo defaultClient (demo_wire context_Background); EvClose 2; EvAttempt 2 (resp500 2)].

(** A request with a body and no client, and its wire request. *)
Definition orphan_request : Request := BodyString "payload" (Client None demo_request).
Definition orphan_wire (ctx : Context) : http_Request :=
  mk_http_Request ctx "GET" "http://example.com" ∅ (Some (strings_NewReader "payload")).

(** A reader that fails. *)
Definition broken_reader : Reader := mkReader [] (Some "disk error"%string).

(** A transport without interceptors over the healthy server. *)
Definition plain_transport : InterceptorTransport :=
  mkInterceptorTransport (Some (always 200)) None None.

(** * Properties *)

(** ** The monad and the trace *)

(** Unfold the combinators of [M] and reduce. *)
Ltac run_monad := cbv beta iota zeta delta [bind ret emit get_trace panic].

(** Induction on a run of the loop, one case per rule, with the names used
    throughout. *)
Ltac induction_on_run H :=
  induction H as
    [ r attempt delay resp0 w Hge
    | r attempt delay resp0 w msg w1 Hlt HD
    | r attempt delay resp0 w resp w1 Hlt HD Hp
    | r attempt delay resp0 w resp w1 b Hlt HD Hp Hstop
    | r attempt delay resp0 w resp w1 delay' w2 cause Hlt HD Hp Hnot HJ Hdone
    | r attempt delay resp0 w resp w1 delay' w2 res Hlt HD Hp Hnot HJ Hdone Hrun IH ].

Lemma count_app (p : Event -> bool) (a b : Trace) :
  count p (a ++ b) = (count p a + count p b)%nat.
Proof. unfold count. rewrite List.filter_app. apply length_app. Qed.

Lemma bind_Ret {A B} (m : M A) (k : A -> M B) (w w' : Trace) (a : A) :
  m w = Ret a w' -> bind m k w = k a w'.
Proof. intros E. unfold bind. now rewrite E. Qed.

Lemma bind_Panic {A B} (m : M A) (k : A -> M B) (w w' : Trace) (msg : string) :
  m w = Panic msg w' -> bind m k w = Panic msg w'.
Proof. intros E. unfold bind. now rewrite E. Qed.

(** ** Backoff functions *)

(** The delays of [ExponentialBackoff(100ms, 2.0, 1s)] for the indices
    0..5, as the tests of the package expect them. *)
Example ExponentialBackoff_test_vector :
  map (ExponentialBackoff (100 * Millisecond) 2%float Second) [0; 1; 2; 3; 4; 5]
  = [100 * Millisecond; 200 * Millisecond; 400 * Millisecond; 800 * Millisecond;
     Second; Second].
Proof. vm_compute. reflexivity. Qed.

(** The delays of [LinearBackoff(100ms, 50ms, 500ms)] for the indices
    0..3 and 8. *)
Example LinearBackoff_test_vector :
  map (LinearBackoff (100 * Millisecond) (50 * Millisecond) (500 * Millisecond))
      [0; 1; 2; 3; 8]
  = [100 * Millisecond; 150 * Millisecond; 200 * Millisecond; 250 * Millisecond;
     500 * Millisecond].
Proof. vm_compute. reflexivity. Qed.

Lemma ConstantBackoff_constant (d : Duration) (i j : Z) :
  ConstantBackoff d i = ConstantBackoff d j.
Proof. reflexivity. Qed.

Lemma wrap64_id (z : Z) : int64_min <= z <= int64_max -> wrap64 z = z.
Proof.
  unfold wrap64, int64_min, int64_max. intros Hz.
  rewrite Z.mod_small; lia.
Qed.

(** Whatever the multiplier, the exponent 0 gives the factor 1. *)
Lemma math_Pow_zero (x : float64) : math_Pow x (float64_of_int64 0) = PrimFloat.one.
Proof. reflexivity. Qed.

(** X4. Attempt index 0 gives [base], clamped to the cap. *)
Lemma ExponentialBackoff_index_0 (base : Duration) (multiplier : float64) (cap : Duration) :
  int64_min <= base <= int64_max ->
  ExponentialBackoff base multiplier cap 0 = Z.min base cap.
Proof.
  intros Hb. unfold ExponentialBackoff. rewrite math_Pow_zero.
  change (int64_of_float64 PrimFloat.one) with 1.
  rewrite Z.mul_1_r, (wrap64_id _ Hb).
  destruct (Z.gtb_spec base cap); lia.
Qed.

(** C4 (as found in the code). [ExponentialBackoff] truncates
    [multiplier^attempt] to an integer before it multiplies with [base], and
    multiplies in int64. With base 100ms, multiplier 1.5 and cap 1s the
    delays for the indices 0..5 are 100, 100, 200, 300, 500 and 700 ms, where
    base * 1.5^i clamped to the cap is 100, 150, 225, 337.5, 506.25 and
    759.375 ms; with base 1s, multiplier 2 and cap 10s, index 34 gives a
    negative delay, not the cap. *)
Theorem ExponentialBackoff_truncates_power :
  map (ExponentialBackoff (100 * Millisecond) 1.5%float Second) [0; 1; 2; 3; 4; 5]
  = [100 * Millisecond; 100 * Millisecond; 200 * Millisecond; 300 * Millisecond;
     500 * Millisecond; 700 * Millisecond]
  /\ ExponentialBackoff Second 2%float (10 * Second) 34 = -1266874889709551616.
Proof. split; vm_compute; reflexivity. Qed.

(** ** The poisoned builder *)

Section Properties.
Context `{Ext : Externals}.

Lemma poisoned_true (r : Request) (e : error) : err r = Some e -> poisoned r = true.
Proof. unfold poisoned. now intros ->. Qed.

Lemma run_op_poisoned (op : BuilderOp) (r : Request) (e : error) :
  err r = Some e -> run_op op r = r.
Proof.
  intros He. pose proof (poisoned_true r e He) as Hp.
  destruct op; simpl;
    unfold Method, URL, Client, Timeout, Header, Headers, QueryParam, QueryParams,
      Body, BodyString, BodyBytes, BodyJSON, BodyForm, Auth, WithAuth, BasicAuth,
      BearerToken, Proxy, ProxyURL, Validate;
    now rewrite Hp.
Qed.

(** A poisoned request goes through any sequence of builder operations
    unchanged. *)
Lemma fold_run_op_poisoned (ops : list BuilderOp) (r : Request) (e : error) :
  err r = Some e -> fold_left (fun acc op => run_op op acc) ops r = r.
Proof.
  intros He. induction ops as [|op ops IH]; simpl; [reflexivity|].
  now rewrite (run_op_poisoned op r e He).
Qed.

(** The middleware of the package hand a poisoned request on as it is. *)
Lemma std_middleware_poisoned (r : Request) (e : error) (w : Trace) :
  err r = Some e ->
  (forall logger, value_of (LoggingMiddleware logger r w) = Some r)
  /\ (forall ua, UserAgentMiddleware ua r w = Ret r w)
  /\ (forall t, TimeoutMiddleware t r w = Ret r w)
  /\ (forall hs, HeadersMiddleware hs r w = Ret r w).
Proof.
  intros He. pose proof (poisoned_true r e He) as Hp.
  repeat split; intros.
  - now destruct logger.
  - unfold UserAgentMiddleware, Header, ret. now rewrite Hp.
  - unfold TimeoutMiddleware, Timeout, ret. now rewrite Hp.
  - unfold HeadersMiddleware, Headers, ret. now rewrite Hp.
Qed.


(** ** Response accessors *)

(** C10. On a response that carries an error, [Bytes], [String], [JSON],
    [BodyReader] and [SaveToFile] return that error and nothing else: no
    bytes, the empty string, the decode target as it was, no reader; [JSON]
    and [SaveToFile] leave the trace as it was (no decode, no file written). *)
Theorem accessors_return_stored_error (r : Response) (e : error) :
  resp_err r = Some e ->
  Bytes r = ([], Some e)
  /\ Response_String r = (""%string, Some e)
  /\ (forall v w, JSON r v w = Ret (v, Some e) w)
  /\ BodyReader r = (None, Some e)
  /\ (forall filename w, SaveToFile r filename w = Ret (Some e) w)
  /\ Error r = Some e.
Proof.
  intros He. unfold Bytes, Response_String, JSON, BodyReader, SaveToFile, Error.
  rewrite He. repeat split; reflexivity.
Qed.

(** ** The default retry predicate *)



(** ** Execution of a request *)

Lemma DoContext_events (r : Request) (ctx : Context) (w : Trace) :
  exists evs, trace_of (DoContext r ctx w) = w ++ evs /\ attempt_events evs.
Proof.
  assert (Hnone : forall w, exists evs, w = w ++ evs /\ attempt_events evs).
  { intros w0. exists []. split; [now rewrite app_nil_r | constructor]. }
  unfold DoContext.
  destruct (err r); [apply Hnone|].
  destruct (wire_request r ctx) as [req|e]; [|apply Hnone].
  assert (Hdo : forall c, exists evs,
             trace_of (bind (do_exchange c req)
               (fun res => match res with
                  | inr e => ret (errResponse ("request failed: " +:+ e))
                  | inl resp =>
                      let '(data, rerr) := (rc_data (hr_Body resp), rc_err (hr_Body resp)) in
                      let* _ := emit (EvClose (rc_id (hr_Body resp))) in
                      match rerr with
                      | Some e => ret (mkResponse (Some resp) []
                                         (Some ("failed to read body: " +:+ e)))
                      | None => ret (mkResponse (Some resp) data None)
                      end
                  end) w) = w ++ evs /\ attempt_events evs).
  { intros [c|]; [|apply Hnone].
    unfold do_exchange, bind, get_trace, emit, ret.
    destruct (client_Do (count is_EvDo w) c req) as [resp|e].
    - exists [EvDo c req; EvClose (rc_id (hr_Body resp))]. split; [|constructor].
      destruct (rc_err (hr_Body resp)); simpl; now rewrite <- app_assoc.
    - exists [EvDo c req]. split; [reflexivity | constructor]. }
  unfold bind at 1.
  destruct (0 <? timeout r).
  - destruct (client r) as [c0|]; [apply Hdo | apply Hnone].
  - apply Hdo.
Qed.

Lemma DoContext_Ret_events (r : Request) (ctx : Context) (w w' : Trace) (resp : Response) :
  DoContext r ctx w = Ret resp w' ->
  exists evs, w' = w ++ evs /\ attempt_events evs.
Proof.
  intros E. destruct (DoContext_events r ctx w) as [evs [Ht Ha]].
  rewrite E in Ht. simpl in Ht. eauto.
Qed.

Lemma attempt_events_counts (evs : list Event) :
  attempt_events evs ->
  count is_EvAttempt evs = 0%nat /\ count is_wait evs = 0%nat
  /\ count is_EvRand evs = 0%nat /\ (count is_EvDo evs <= 1)%nat
  /\ waited evs = [] /\ Forall (fun e => is_EvDone e = false) evs
  /\ timers evs = [].
Proof.
  intros []; cbn; repeat split; auto.
Qed.

Lemma execution_client_Some (r : Request) (c0 : http_Client) :
  client r = Some c0 ->
  execution_client r
  = Some (if 0 <? timeout r then mk_http_Client (Transport c0) None None (timeout r) else c0).
Proof. unfold execution_client. intros ->. now destruct (0 <? timeout r). Qed.

(** [DoContext] takes one of the ways of [DoContext_outcome]. *)
Lemma DoContext_outcome_holds (r : Request) (ctx : Context) (w : Trace) :
  DoContext_outcome r ctx w (DoContext r ctx w).
Proof.
  unfold DoContext.
  destruct (err r) as [e|] eqn:He; [now apply oc_poisoned|].
  destruct (wire_request r ctx) as [req|e] eqn:Hreq; [|now apply oc_unbuildable].
  destruct (client r) as [c0|] eqn:Hc.
  2:{ destruct (0 <? timeout r); run_monad; cbv beta iota delta [do_exchange]; run_monad;
      now apply oc_nil_client with (req := req). }
  pose proof (execution_client_Some r c0 Hc) as Hx.
  destruct (0 <? timeout r);
    run_monad; cbv beta iota delta [do_exchange]; run_monad;
    match goal with
    | |- context [client_Do ?k ?c ?q] => destruct (client_Do k c q) as [resp|e] eqn:Hdo
    end;
    try (now eapply oc_failed; eauto);
    (destruct (rc_err (hr_Body resp)) as [e|] eqn:Hrd;
     rewrite <- app_assoc; [eapply oc_unread | eapply oc_read]; eauto).
Qed.

(** The wire request does not depend on the timeout. *)
Lemma wire_request_with_timeout (t : Duration) (r : Request) (ctx : Context) :
  wire_request (with_timeout t r) ctx = wire_request r ctx.
Proof. reflexivity. Qed.

(** C9. When a positive timeout has been set with [Timeout] on a request
    that is not poisoned and has a client, and the wire request can be built,
    the exchange is made with a client that has the transport of the
    request's client, the timeout of the request, no cookie jar and no
    redirect policy; it is the only exchange of the execution. *)
Theorem Timeout_executes_on_fresh_client
    (r : Request) (ctx : Context) (c0 : http_Client) (t : Duration)
    (req : http_Request) (w : Trace) :
  err r = None ->
  client r = Some c0 ->
  0 < t ->
  wire_request r ctx = inl req ->
  exists rest,
    trace_of (DoContext (Timeout t r) ctx w)
    = w ++ EvDo (mk_http_Client (Transport c0) None None t) req :: rest
    /\ count is_EvDo rest = 0%nat.
Proof.
  intros He Hc Ht Hreq.
  unfold Timeout, poisoned. rewrite He.
  unfold DoContext. cbn [err with_timeout]. rewrite He.
  rewrite wire_request_with_timeout, Hreq.
  cbn [timeout client with_timeout]. rewrite Hc.
  assert (Hpos : (0 <? t) = true) by (apply Z.ltb_lt; exact Ht). rewrite Hpos.
  run_monad; cbv beta iota delta [do_exchange]; run_monad.
  match goal with
  | |- context [client_Do ?k ?c ?q] => destruct (client_Do k c q) as [resp|e]
  end.
  - exists [EvClose (rc_id (hr_Body resp))]. split; [|reflexivity].
    destruct (rc_err (hr_Body resp)); simpl; now rewrite <- app_assoc.
  - exists []. split; reflexivity.
Qed.

(** ** The retry loop *)


Lemma replay_buffered (r : Request) (rd : Reader) :
  body r = Some rd -> rd_err rd = None -> replay (Some (rd_data rd)) r = r.
Proof.
  destruct r, rd. cbn. intros -> ->. reflexivity.
Qed.

Lemma call_RetryIf_predicate (config : RetryConfig) (resp : Response) (w : Trace) :
  call_RetryIf config resp w
  = match predicate config resp with
    | Some b => Ret b w
    | None => Panic nil_deref w
    end.
Proof.
  unfold call_RetryIf, predicate.
  destruct (RetryIf config) as [f|]; [|reflexivity].
  destruct (f resp); reflexivity.
Qed.

(** The jitter step cannot panic; it draws at most one random number. *)
Lemma jittered_Ret (config : RetryConfig) (delay : Duration) (w : Trace) :
  exists delay' evs,
    jittered config delay w = Ret delay' (w ++ evs) /\ (evs = [] \/ evs = [EvRand]).
Proof.
  unfold jittered. destruct (Jitter config).
  - unfold addJitter. run_monad. eauto.
  - exists delay, []. unfold ret. rewrite app_nil_r. auto.
Qed.

(** Every run of the function is a run of the relation, as soon as [n]
    covers the attempts left. *)
Lemma retry_loop_run (ctx : Context) (config : RetryConfig) (bodyBytes : option bytes)
    (n : nat) :
  forall r attempt delay resp0 w,
    (Z.to_nat (MaxAttempts config - attempt) <= n)%nat ->
    loop_run ctx config bodyBytes r attempt delay resp0 w
             (retry_loop n ctx config bodyBytes r attempt delay resp0 w).
Proof.
  induction n as [|n IH]; intros r attempt delay resp0 w Hn.
  - apply run_exit. lia.
  - cbn [retry_loop].
    destruct (Z.ltb_spec attempt (MaxAttempts config)) as [Hlt|Hge]; cbn [negb];
      [|apply run_exit; lia].
    destruct (DoContext (replay bodyBytes r) ctx w) as [resp w1|msg w1] eqn:HD.
    2:{ rewrite (bind_Panic _ _ _ _ _ HD). now apply run_attempt_panics. }
    rewrite (bind_Ret _ _ _ _ _ HD).
    unfold bind at 1, emit at 1. unfold bind at 1.
    rewrite call_RetryIf_predicate.
    destruct (predicate config resp) as [[|]|] eqn:Hp; cbn [negb].
    3:{ now apply run_predicate_panics. }
    2:{ unfold ret. eapply run_stop; eauto. }
    destruct (Z.eqb_spec attempt (MaxAttempts config - 1)) as [Hlast|Hnot].
    { unfold ret. eapply run_stop; eauto. }
    destruct (jittered_Ret config delay (w1 ++ [EvAttempt attempt resp]))
      as (delay' & evs & HJ & _).
    rewrite (bind_Ret _ _ _ _ _ HJ).
    unfold select_Done_After. run_monad.
    match goal with
    | |- context [ctx_Done ctx ?k ?d] => destruct (ctx_Done ctx k d) as [cause|] eqn:Hdone
    end.
    + eapply run_cancelled; eauto.
    + eapply run_again; eauto. apply IH. lia.
Qed.

Lemma DoContext_Panic_events (r : Request) (ctx : Context) (w w' : Trace) (msg : string) :
  DoContext r ctx w = Panic msg w' ->
  exists evs, w' = w ++ evs /\ attempt_events evs.
Proof.
  intros E. destruct (DoContext_events r ctx w) as [evs [Ht Ha]].
  rewrite E in Ht. simpl in Ht. eauto.
Qed.

Lemma jittered_events (config : RetryConfig) (delay delay' : Duration) (w w' : Trace) :
  jittered config delay w = Ret delay' w' ->
  exists evs, w' = w ++ evs /\ (evs = [] \/ evs = [EvRand]).
Proof.
  intros E. destruct (jittered_Ret config delay w) as (d & evs & HJ & Hev).
  rewrite E in HJ. injection HJ as _ ->. eauto.
Qed.

Lemma no_EvDone_app (a b : list Event) : no_EvDone a -> no_EvDone b -> no_EvDone (a ++ b).
Proof. unfold no_EvDone. intros. now apply Forall_app. Qed.

Lemma attempt_events_no_EvDone (evs : list Event) : attempt_events evs -> no_EvDone evs.
Proof. intros H. now apply attempt_events_counts in H. Qed.

Lemma jitter_no_EvDone (evs : list Event) : evs = [] \/ evs = [EvRand] -> no_EvDone evs.
Proof. intros [->| ->]; repeat constructor. Qed.

Lemma jitter_counts (evs : list Event) :
  evs = [] \/ evs = [EvRand] ->
  count is_EvAttempt evs = 0%nat /\ count is_wait evs = 0%nat /\ waited evs = [].
Proof. intros [->| ->]; cbn; auto. Qed.

(** A run either never loses a race against the context, or is cut short
    by it. *)
Lemma loop_run_cut_short (ctx : Context) (config : RetryConfig) (bodyBytes : option bytes)
    r attempt delay resp0 w res :
  loop_run ctx config bodyBytes r attempt delay resp0 w res ->
  exists evs, trace_of res = w ++ evs /\ (no_EvDone evs \/ cut_short ctx w evs res).
Proof.
  intros Hrun; induction_on_run Hrun.
  - exists []. split; [now rewrite app_nil_r | left; constructor].
  - apply DoContext_Panic_events in HD as (evs & -> & Hev). exists evs.
    split; [reflexivity | left; now apply attempt_events_no_EvDone].
  - apply DoContext_Ret_events in HD as (evs & -> & Hev).
    exists (evs ++ [EvAttempt attempt resp]). split; [cbn; now rewrite app_assoc|].
    left. apply no_EvDone_app; [now apply attempt_events_no_EvDone | repeat constructor].
  - apply DoContext_Ret_events in HD as (evs & -> & Hev).
    exists (evs ++ [EvAttempt attempt resp]). split; [cbn; now rewrite app_assoc|].
    left. apply no_EvDone_app; [now apply attempt_events_no_EvDone | repeat constructor].
  - apply DoContext_Ret_events in HD as (evs & -> & Hev).
    apply jittered_events in HJ as (evsJ & -> & HevJ).
    exists ((evs ++ EvAttempt attempt resp :: evsJ) ++ [EvDone delay']).
    assert (Hw : ((w ++ evs) ++ [EvAttempt attempt resp]) ++ evsJ
                 = w ++ evs ++ EvAttempt attempt resp :: evsJ)
      by now rewrite <- !app_assoc.
    rewrite Hw in *.
    split; [cbn; now rewrite !app_assoc|].
    right. exists (evs ++ EvAttempt attempt resp :: evsJ), attempt, resp, delay', cause.
    destruct (attempt_events_counts evs Hev) as (Ha & Hwt & _).
    destruct (jitter_counts evsJ HevJ) as (HaJ & HwJ & _).
    repeat split.
    + apply no_EvDone_app; [now apply attempt_events_no_EvDone|].
      constructor; [reflexivity | now apply jitter_no_EvDone].
    + now exists evs, evsJ.
    + exact Hdone.
    + now rewrite !app_assoc.
    + change (EvAttempt attempt resp :: evsJ) with ([EvAttempt attempt resp] ++ evsJ).
      rewrite !count_app, Ha, Hwt, HaJ, HwJ. reflexivity.
  - apply DoContext_Ret_events in HD as (evs & -> & Hev).
    apply jittered_events in HJ as (evsJ & -> & HevJ).
    destruct IH as (evs' & Htr & Hcase).
    set (iter := evs ++ EvAttempt attempt resp :: evsJ ++ [EvTimer delay']).
    assert (Hw : (((w ++ evs) ++ [EvAttempt attempt resp]) ++ evsJ) ++ [EvTimer delay']
                 = w ++ iter)
      by (unfold iter; now rewrite <- !app_assoc).
    rewrite Hw in *.
    assert (Hiter : no_EvDone iter).
    { unfold iter. apply no_EvDone_app; [now apply attempt_events_no_EvDone|].
      constructor; [reflexivity|].
      apply no_EvDone_app; [now apply jitter_no_EvDone | repeat constructor]. }
    assert (Hcount : count is_EvAttempt iter = 1%nat /\ count is_wait iter = 1%nat).
    { unfold iter.
      destruct (attempt_events_counts evs Hev) as (Ha & Hwt & _).
      destruct (jitter_counts evsJ HevJ) as (HaJ & HwJ & _).
      change (EvAttempt attempt resp :: evsJ ++ [EvTimer delay'])
        with ([EvAttempt attempt resp] ++ evsJ ++ [EvTimer delay']).
      rewrite !count_app, Ha, Hwt, HaJ, HwJ. split; reflexivity. }
    exists (iter ++ evs'). split; [now rewrite Htr, <- app_assoc|].
    destruct Hcase as [Hno | (pre & a & resp' & d & cause & -> & Hpre & Hlast & Hd & Hres & Hc)].
    + left. now apply no_EvDone_app.
    + right. exists (iter ++ pre), a, resp', d, cause.
      repeat split.
      * now rewrite app_assoc.
      * now apply no_EvDone_app.
      * destruct Hlast as (pre0 & tail & -> & Htail).
        exists (iter ++ pre0), tail. split; [now rewrite <- app_assoc | exact Htail].
      * now rewrite app_assoc.
      * now rewrite Hres, <- !app_assoc.
      * destruct Hcount as [H1 H2]. rewrite !count_app, H1, H2, Hc. reflexivity.
Qed.

(** [DoWithRetry] returns at once with an error response, or runs the loop
    from attempt 0 with the configured delay. *)
Lemma DoWithRetry_run (r : Request) (ctx : Context) (config : option RetryConfig)
    (w : Trace) :
  (exists e, DoWithRetry r ctx config w = Ret (Some (errResponse e)) w)
  \/ (exists bodyBytes,
        loop_run ctx (default DefaultRetryConfig config) bodyBytes r 0
                 (Delay (default DefaultRetryConfig config)) None w
                 (DoWithRetry r ctx config w)).
Proof.
  unfold DoWithRetry.
  replace (match config with Some c => c | None => DefaultRetryConfig end)
    with (default DefaultRetryConfig config) by now destruct config.
  destruct (err r) as [e|]; [left; eauto|].
  destruct (body r) as [rd|].
  - destruct (io_ReadAll rd) as [b [e|]]; [left; eauto|].
    right. exists (Some b). apply retry_loop_run. lia.
  - right. exists None. apply retry_loop_run. lia.
Qed.

(** *** What follows an attempt, and what a timer that fired tells *)

(** Where an event [y] with [P y] sits, in a list that begins with a part
    [A] without such events. *)
Lemma first_split (P : Event -> bool) (A B pre post : list Event) (x y : Event) :
  Forall (fun e => P e = false) A -> P y = true ->
  A ++ x :: B = pre ++ y :: post ->
  (pre = A /\ x = y /\ post = B)
  \/ (exists pre', pre = A ++ x :: pre' /\ B = pre' ++ y :: post).
Proof.
  intros HA Hy. revert pre. induction HA as [|a0 A Ha HA IH]; intros pre E.
  - destruct pre as [|p pre]; cbn in E.
    + injection E as -> ->. now left.
    + injection E as -> ->. right. now exists pre.
  - destruct pre as [|p pre]; cbn in E.
    + injection E as -> _. congruence.
    + injection E as -> E. destruct (IH pre E) as [(-> & -> & ->) | (pre' & -> & ->)].
      * now left.
      * right. now exists pre'.
Qed.

Lemma none_not_in (P : Event -> bool) (l pre post : list Event) (y : Event) :
  Forall (fun e => P e = false) l -> P y = true -> l <> pre ++ y :: post.
Proof.
  intros H Hy ->. apply Forall_app in H as [_ H]. inversion H; congruence.
Qed.

Lemma attempt_events_plain (evs : list Event) :
  attempt_events evs ->
  Forall (fun e => is_EvAttempt e = false) evs /\ Forall (fun e => is_EvTimer e = false) evs.
Proof. intros []; split; repeat constructor. Qed.

Lemma jitter_plain (evs : list Event) :
  evs = [] \/ evs = [EvRand] ->
  Forall (fun e => is_EvAttempt e = false) evs /\ Forall (fun e => is_EvTimer e = false) evs.
Proof. intros [-> | ->]; split; repeat constructor. Qed.





(** A timer fired only where the context did not win the race. *)
Lemma loop_run_timer_fired (ctx : Context) (config : RetryConfig)
    (bodyBytes : option bytes) r attempt delay resp0 w res :
  loop_run ctx config bodyBytes r attempt delay resp0 w res ->
  forall pre d post,
    trace_of res = w ++ pre ++ EvTimer d :: post ->
    ctx_Done ctx (count is_wait (w ++ pre)) d = None.
Proof.
  intros Hrun; induction_on_run Hrun; intros pre d post Htr.
  - cbn in Htr. rewrite <- (app_nil_r w) in Htr at 1. apply app_inv_head in Htr.
    now destruct pre.
  - apply DoContext_Panic_events in HD as (evs & -> & Hev).
    cbn in Htr. apply app_inv_head in Htr. exfalso.
    exact (none_not_in is_EvTimer _ _ _ (EvTimer d)
             (proj2 (attempt_events_plain evs Hev)) eq_refl Htr).
  - apply DoContext_Ret_events in HD as (evs & -> & Hev).
    cbn in Htr. rewrite <- app_assoc in Htr. apply app_inv_head in Htr. exfalso.
    revert Htr. apply (none_not_in is_EvTimer); [|reflexivity].
    apply Forall_app. split; [apply (attempt_events_plain evs Hev) | repeat constructor].
  - apply DoContext_Ret_events in HD as (evs & -> & Hev).
    cbn in Htr. rewrite <- app_assoc in Htr. apply app_inv_head in Htr. exfalso.
    revert Htr. apply (none_not_in is_EvTimer); [|reflexivity].
    apply Forall_app. split; [apply (attempt_events_plain evs Hev) | repeat constructor].
  - apply DoContext_Ret_events in HD as (evs & -> & Hev).
    apply jittered_events in HJ as (evsJ & -> & HevJ).
    cbn in Htr. rewrite <- !app_assoc in Htr. apply app_inv_head in Htr. exfalso.
    revert Htr. apply (none_not_in is_EvTimer); [|reflexivity].
    apply Forall_app. split; [apply (attempt_events_plain evs Hev)|].
    apply Forall_app. split; [repeat constructor|].
    apply Forall_app. split; [apply (jitter_plain evsJ HevJ) | repeat constructor].
  - apply DoContext_Ret_events in HD as (evs & -> & Hev).
    apply jittered_events in HJ as (evsJ & -> & HevJ).
    destruct (loop_run_cut_short _ _ _ _ _ _ _ _ _ Hrun) as (evs' & Hevs' & _).
    assert (Hplain : Forall (fun e => is_EvTimer e = false)
                       (evs ++ EvAttempt attempt resp :: evsJ)).
    { apply Forall_app. split; [apply (attempt_events_plain evs Hev)|].
      constructor; [reflexivity | apply (jitter_plain evsJ HevJ)]. }
    assert (Hw : forall tl,
               ((((w ++ evs) ++ [EvAttempt attempt resp]) ++ evsJ) ++ [EvTimer delay']) ++ tl
               = w ++ (evs ++ EvAttempt attempt resp :: evsJ) ++ EvTimer delay' :: tl).
    { intros tl. repeat (rewrite <- app_assoc; cbn). reflexivity. }
    assert (Htr' := Htr). rewrite Hevs', Hw in Htr. apply app_inv_head in Htr.
    destruct (first_split is_EvTimer _ _ _ _ _ (EvTimer d) Hplain eq_refl Htr)
      as [(-> & [= <-] & _) | (pre' & -> & E)].
    + rewrite <- Hdone. f_equal. f_equal. now rewrite <- !app_assoc.
    + assert (Htr2 : trace_of res
                     = ((((w ++ evs) ++ [EvAttempt attempt resp]) ++ evsJ)
                          ++ [EvTimer delay']) ++ pre' ++ EvTimer d :: post)
        by now rewrite Hevs', E.
      rewrite <- (IH pre' d post Htr2). f_equal. f_equal.
      rewrite Hw. now rewrite <- !app_assoc.
Qed.


Lemma snoc_eq_split (P pre post : list Event) (x : Event) (d : Duration) :
  no_EvDone P ->
  P ++ [x] = pre ++ EvDone d :: post ->
  pre = P /\ x = EvDone d /\ post = [].
Proof.
  intros HP. revert pre. induction HP as [|p P Hp HP IH]; intros pre E.
  - destruct pre as [|y pre]; cbn in E.
    + injection E as -> <-. auto.
    + injection E as _ E. now destruct pre.
  - destruct pre as [|y pre]; cbn in E.
    + injection E as -> _. discriminate.
    + injection E as -> E. destruct (IH pre E) as (-> & -> & ->). auto.
Qed.

Lemma no_EvDone_not_in (evs pre post : list Event) (d : Duration) :
  no_EvDone evs -> evs <> pre ++ EvDone d :: post.
Proof.
  intros H ->. apply Forall_app in H as [_ H]. inversion_clear H. discriminate.
Qed.

(** C7. If, in a run of [DoWithRetry], a wait of [d] was started after the
    events [pre] (the trace holds the timer that fired or the wait that was
    cut short, whichever the code did), and the context is cancelled during
    that wait ([ctx_Done] answers [Some cause] for it), then the wait was cut
    short and is the last event of the run, so that nothing, and no attempt
    in particular, comes after it; [DoWithRetry] returns the response of the
    last attempt, its [http.Response] and body as they were and its error
    set to the cause of the cancellation; and the attempts made are one more
    than the waits before the cancelled one (a cancellation during the first
    wait leaves exactly one attempt). *)
Theorem cancelled_wait_ends_the_run
    (r : Request) (ctx : Context) (config : option RetryConfig) (w : Trace)
    (pre post : list Event) (e : Event) (d : Duration) (cause : error) :
  trace_of (DoWithRetry r ctx config w) = w ++ pre ++ e :: post ->
  e = EvTimer d \/ e = EvDone d ->
  ctx_Done ctx (count is_wait (w ++ pre)) d = Some cause ->
  e = EvDone d
  /\ post = []
  /\ exists a resp,
      last_attempt pre a resp
      /\ DoWithRetry r ctx config w
         = Ret (Some (mkResponse (resp_Response resp) (resp_body resp) (Some cause)))
               (w ++ pre ++ [EvDone d])
      /\ count is_EvAttempt pre = S (count is_wait pre)
      /\ count is_EvAttempt (pre ++ e :: post) = count is_EvAttempt pre.
Proof.
  intros Htr He Hctx.
  destruct (DoWithRetry_run r ctx config w) as [[e' He'] | [bb Hrun]].
  - rewrite He' in Htr. cbn in Htr.
    rewrite <- (app_nil_r w) in Htr at 1. apply app_inv_head in Htr.
    now destruct pre.
  - destruct He as [-> | ->].
    + pose proof (loop_run_timer_fired _ _ _ _ _ _ _ _ _ Hrun pre d post Htr) as Hnone.
      congruence.
    + apply loop_run_cut_short in Hrun as (evs & Hevs & Hcase).
      rewrite Htr in Hevs. apply app_inv_head in Hevs.
      destruct Hcase
        as [Hno | (P & a & resp & d' & cause' & HP & Hpre & Hlast & Hd & Hres & Hc)].
      * exfalso. exact (no_EvDone_not_in _ _ _ _ Hno (eq_sym Hevs)).
      * rewrite HP in Hevs. symmetry in Hevs.
        apply (snoc_eq_split P pre post _ d Hpre) in Hevs as (-> & [= ->] & ->).
        assert (cause' = cause) by congruence. subst cause'.
        split; [reflexivity|]. split; [reflexivity|]. exists a, resp.
        rewrite HP in Hres. split; [exact Hlast|]. split; [exact Hres|].
        split; [exact Hc|]. rewrite count_app. cbn. lia.
Qed.

(** *** What does hold of the delays and of the number of attempts *)

Lemma waited_app (a b : list Event) : waited (a ++ b) = waited a ++ waited b.
Proof.
  induction a as [|e a IH]; [reflexivity|].
  destruct e; cbn; now rewrite ?IH.
Qed.

Lemma timers_app (a b : list Event) : timers (a ++ b) = timers a ++ timers b.
Proof.
  induction a as [|e a IH]; [reflexivity|].
  destruct e; cbn; now rewrite ?IH.
Qed.

(** Every wait that was waited in full belongs to a timer that was started. *)
Lemma waited_timers (evs : list Event) (P : Duration -> Prop) :
  Forall P (timers evs) -> Forall P (waited evs).
Proof.
  induction evs as [|e evs IH]; [constructor|].
  destruct e; cbn; try exact IH; intros H; inversion_clear H; auto.
Qed.

Lemma advance_le_MaxDelay (config : RetryConfig) (delay : Duration) :
  advance config delay <= MaxDelay config.
Proof.
  unfold advance.
  match goal with |- context [?x >? ?y] => destruct (Z.gtb_spec x y) end; lia.
Qed.

(** Without jitter, a run that starts with a delay under [MaxDelay] never
    starts a timer longer than [MaxDelay]. *)
Lemma loop_run_timers_bounded (ctx : Context) (config : RetryConfig)
    (bodyBytes : option bytes) r attempt delay resp0 w res :
  Jitter config = false ->
  loop_run ctx config bodyBytes r attempt delay resp0 w res ->
  delay <= MaxDelay config ->
  exists evs, trace_of res = w ++ evs
              /\ Forall (fun d => d <= MaxDelay config) (timers evs).
Proof.
  intros HJit. intros Hrun; induction_on_run Hrun;
    intros Hle.
  - exists []. split; [now rewrite app_nil_r | constructor].
  - apply DoContext_Panic_events in HD as (evs & -> & Hev). exists evs.
    split; [reflexivity|].
    apply attempt_events_counts in Hev as (_ & _ & _ & _ & _ & _ & ->). constructor.
  - apply DoContext_Ret_events in HD as (evs & -> & Hev).
    exists (evs ++ [EvAttempt attempt resp]). split; [cbn; now rewrite app_assoc|].
    apply attempt_events_counts in Hev as (_ & _ & _ & _ & _ & _ & Ht).
    rewrite timers_app, Ht. constructor.
  - apply DoContext_Ret_events in HD as (evs & -> & Hev).
    exists (evs ++ [EvAttempt attempt resp]). split; [cbn; now rewrite app_assoc|].
    apply attempt_events_counts in Hev as (_ & _ & _ & _ & _ & _ & Ht).
    rewrite timers_app, Ht. constructor.
  - apply DoContext_Ret_events in HD as (evs & -> & Hev).
    unfold jittered in HJ. rewrite HJit in HJ. injection HJ as <- <-.
    exists (evs ++ [EvAttempt attempt resp; EvDone delay]).
    split; [cbn; now rewrite <- !app_assoc|].
    apply attempt_events_counts in Hev as (_ & _ & _ & _ & _ & _ & Ht).
    rewrite timers_app, Ht. cbn. constructor; [exact Hle | constructor].
  - apply DoContext_Ret_events in HD as (evs & -> & Hev).
    unfold jittered in HJ. rewrite HJit in HJ. injection HJ as <- <-.
    destruct (IH (advance_le_MaxDelay config delay)) as (evs' & Htr & Hall).
    exists (evs ++ [EvAttempt attempt resp; EvTimer delay] ++ evs').
    split; [rewrite Htr; now rewrite <- !app_assoc|].
    apply attempt_events_counts in Hev as (_ & _ & _ & _ & _ & _ & Ht).
    rewrite !timers_app, Ht. cbn. constructor; assumption.
Qed.

(** C1 (amended). With jitter disabled and [Delay] at most [MaxDelay], no
    wait of a run of [DoWithRetry] exceeds [MaxDelay], however often the
    multiplier has been applied: every timer the run starts, and so every
    delay it waits in full, is at most [MaxDelay]. *)
Theorem waits_bounded_without_jitter
    (r : Request) (ctx : Context) (config : RetryConfig) (w : Trace) :
  Jitter config = false ->
  Delay config <= MaxDelay config ->
  exists evs,
    trace_of (DoWithRetry r ctx (Some config) w) = w ++ evs
    /\ Forall (fun d => d <= MaxDelay config) (timers evs)
    /\ Forall (fun d => d <= MaxDelay config) (waited evs).
Proof.
  intros HJit Hle.
  destruct (DoWithRetry_run r ctx (Some config) w) as [[e He] | [bb Hrun]].
  - rewrite He. exists []. split; [cbn; now rewrite app_nil_r | split; constructor].
  - cbn [default] in Hrun.
    destruct (loop_run_timers_bounded _ _ _ _ _ _ _ _ _ HJit Hrun Hle) as (evs & Htr & Hall).
    exists evs. split; [exact Htr|]. split; [exact Hall | now apply waited_timers].
Qed.

(** A run makes no more attempts than the loop has iterations left. *)
Lemma loop_run_attempts_bounded (ctx : Context) (config : RetryConfig)
    (bodyBytes : option bytes) r attempt delay resp0 w res :
  loop_run ctx config bodyBytes r attempt delay resp0 w res ->
  exists evs, trace_of res = w ++ evs
              /\ (count is_EvAttempt evs <= Z.to_nat (MaxAttempts config - attempt))%nat
              /\ (count is_EvDo evs <= Z.to_nat (MaxAttempts config - attempt))%nat.
Proof.
  intros Hrun; induction_on_run Hrun.
  - exists []. split; [now rewrite app_nil_r | cbn; lia].
  - apply DoContext_Panic_events in HD as (evs & -> & Hev). exists evs.
    split; [reflexivity|]. apply attempt_events_counts in Hev as (-> & _ & _ & Hdo & _).
    lia.
  - apply DoContext_Ret_events in HD as (evs & -> & Hev).
    exists (evs ++ [EvAttempt attempt resp]). split; [cbn; now rewrite app_assoc|].
    apply attempt_events_counts in Hev as (Ha & _ & _ & Hdo & _).
    rewrite !count_app, Ha. cbn. lia.
  - apply DoContext_Ret_events in HD as (evs & -> & Hev).
    exists (evs ++ [EvAttempt attempt resp]). split; [cbn; now rewrite app_assoc|].
    apply attempt_events_counts in Hev as (Ha & _ & _ & Hdo & _).
    rewrite !count_app, Ha. cbn. lia.
  - apply DoContext_Ret_events in HD as (evs & -> & Hev).
    apply jittered_events in HJ as (evsJ & -> & HevJ).
    exists (evs ++ [EvAttempt attempt resp] ++ evsJ ++ [EvDone delay']).
    split; [cbn; now rewrite <- !app_assoc|].
    apply attempt_events_counts in Hev as (Ha & _ & _ & Hdo & _).
    destruct HevJ as [-> | ->]; rewrite !count_app, Ha; cbn; lia.
  - apply DoContext_Ret_events in HD as (evs & -> & Hev).
    apply jittered_events in HJ as (evsJ & -> & HevJ).
    destruct IH as (evs' & Htr & Hatt & Hdo').
    exists (evs ++ [EvAttempt attempt resp] ++ evsJ ++ [EvTimer delay'] ++ evs').
    split; [rewrite Htr; now rewrite <- !app_assoc|].
    apply attempt_events_counts in Hev as (Ha & _ & _ & Hdo & _).
    destruct HevJ as [-> | ->]; rewrite !count_app, Ha; cbn; lia.
Qed.

(** X1. [DoWithRetry] makes at most [MaxAttempts] attempts (none when
    [MaxAttempts] is not positive), and at most as many exchanges. *)
Theorem attempts_bounded_by_MaxAttempts
    (r : Request) (ctx : Context) (config : RetryConfig) (w : Trace) :
  exists evs,
    trace_of (DoWithRetry r ctx (Some config) w) = w ++ evs
    /\ (count is_EvAttempt evs <= Z.to_nat (MaxAttempts config))%nat
    /\ (count is_EvDo evs <= Z.to_nat (MaxAttempts config))%nat.
Proof.
  destruct (DoWithRetry_run r ctx (Some config) w) as [[e He] | [bb Hrun]].
  - rewrite He. exists []. split; [cbn; now rewrite app_nil_r | cbn; lia].
  - cbn [default] in Hrun.
    apply loop_run_attempts_bounded in Hrun as (evs & Htr & Ha & Hd).
    rewrite Z.sub_0_r in Ha, Hd. eauto.
Qed.

(** With a client, [DoContext] does not panic. *)
Lemma DoContext_no_panic (r : Request) (ctx : Context) (c : http_Client) (w : Trace) :
  client r = Some c -> exists resp w', DoContext r ctx w = Ret resp w'.
Proof.
  intros Hc. unfold DoContext.
  destruct (err r); [unfold ret; eauto|].
  destruct (wire_request r ctx) as [req|e]; [|unfold ret; eauto].
  rewrite Hc. destruct (0 <? timeout r);
    run_monad; cbv beta iota delta [do_exchange]; run_monad;
    (match goal with
     | |- context [client_Do ?k ?c ?q] => destruct (client_Do k c q) as [resp|e]
     end; [destruct (rc_err (hr_Body resp))|]); eauto.
Qed.

Lemma client_replay (bodyBytes : option bytes) (r : Request) :
  client (replay bodyBytes r) = client r.
Proof. now destruct bodyBytes. Qed.

Lemma outcomes_app (a b : list Event) : outcomes (a ++ b) = outcomes a ++ outcomes b.
Proof.
  induction a as [|e a IH]; [reflexivity|].
  destruct e; cbn; now rewrite ?IH.
Qed.

Lemma attempt_events_outcomes (evs : list Event) : attempt_events evs -> outcomes evs = [].
Proof. now intros []. Qed.

Lemma jitter_outcomes (evs : list Event) : evs = [] \/ evs = [EvRand] -> outcomes evs = [].
Proof. now intros [-> | ->]. Qed.

(** When the outcome of every attempt of the run asks for a retry and the
    context is never cancelled, the loop runs through all the attempts left
    and returns the response of the last one as it is. *)
Lemma loop_run_exhausted (ctx : Context) (config : RetryConfig)
    (bodyBytes : option bytes) r attempt delay resp0 w res :
  (forall k d, ctx_Done ctx k d = None) ->
  loop_run ctx config bodyBytes r attempt delay resp0 w res ->
  attempt < MaxAttempts config ->
  (exists c, client r = Some c) ->
  forall evs,
    trace_of res = w ++ evs ->
    Forall (fun resp => predicate config resp = Some true) (outcomes evs) ->
    exists resp,
      res = Ret (Some resp) (w ++ evs)
      /\ count is_EvAttempt evs = Z.to_nat (MaxAttempts config - attempt)
      /\ last_attempt evs (MaxAttempts config - 1) resp.
Proof.
  intros Hctx. intros Hrun; induction_on_run Hrun;
    intros Hlt' [c Hc] all Htr Hall.
  - lia.
  - rewrite <- (client_replay bodyBytes) in Hc.
    destruct (DoContext_no_panic _ ctx c w Hc) as (resp & w' & E). congruence.
  - apply DoContext_Ret_events in HD as (evs & -> & Hev).
    cbn in Htr. rewrite <- app_assoc in Htr. apply app_inv_head in Htr. subst all.
    rewrite outcomes_app, (attempt_events_outcomes evs Hev) in Hall. cbn in Hall.
    inversion Hall; congruence.
  - apply DoContext_Ret_events in HD as (evs & -> & Hev).
    cbn in Htr. rewrite <- app_assoc in Htr. apply app_inv_head in Htr. subst all.
    rewrite outcomes_app, (attempt_events_outcomes evs Hev) in Hall. cbn in Hall.
    assert (b = true) by (inversion Hall; congruence). subst b.
    destruct Hstop as [Hb | Hlast]; [discriminate|].
    exists resp.
    apply attempt_events_counts in Hev as (Ha & _).
    split; [now rewrite app_assoc|]. split.
    + rewrite count_app, Ha. cbn. lia.
    + exists evs, []. rewrite Hlast. auto.
  - rewrite Hctx in Hdone. discriminate.
  - apply DoContext_Ret_events in HD as (evs & -> & Hev).
    apply jittered_events in HJ as (evsJ & -> & HevJ).
    destruct (loop_run_cut_short _ _ _ _ _ _ _ _ _ Hrun) as (evs' & Hevs' & _).
    rewrite Hevs' in Htr. rewrite <- !app_assoc in Htr. apply app_inv_head in Htr.
    subst all.
    rewrite !outcomes_app, (attempt_events_outcomes evs Hev),
      (jitter_outcomes evsJ HevJ) in Hall. cbn in Hall.
    apply Forall_cons in Hall as [_ Hall].
    destruct (IH ltac:(lia) ltac:(exists c; now rewrite client_replay) evs' Hevs' Hall)
      as (resp' & -> & Hcount & Hlast).
    exists resp'.
    apply attempt_events_counts in Hev as (Ha & _).
    split; [now rewrite <- !app_assoc|]. split.
    + destruct HevJ as [-> | ->]; rewrite !count_app, Ha, Hcount; cbn; lia.
    + destruct Hlast as (pre0 & tail & -> & Htail).
      exists (evs ++ [EvAttempt attempt resp] ++ evsJ ++ [EvTimer delay'] ++ pre0), tail.
      split; [now rewrite <- !app_assoc | exact Htail].
Qed.

(** X2. Exhausted retries: when the predicate asks for a retry on the
    outcome of every attempt of the run (the responses [outcomes evs] that
    the attempts gave, not every response there could be) and the context is
    never cancelled, [DoWithRetry] makes exactly [MaxAttempts] attempts and
    returns the response of the last one as it is. *)
Theorem exhausted_retries_return_last_response
    (r : Request) (ctx : Context) (config : RetryConfig) (c : http_Client) (w : Trace)
    (evs : list Event) :
  err r = None ->
  (forall rd, body r = Some rd -> rd_err rd = None) ->
  client r = Some c ->
  1 <= MaxAttempts config ->
  (forall k d, ctx_Done ctx k d = None) ->
  trace_of (DoWithRetry r ctx (Some config) w) = w ++ evs ->
  Forall (fun resp => predicate config resp = Some true) (outcomes evs) ->
  exists resp,
    DoWithRetry r ctx (Some config) w = Ret (Some resp) (w ++ evs)
    /\ count is_EvAttempt evs = Z.to_nat (MaxAttempts config)
    /\ last_attempt evs (MaxAttempts config - 1) resp.
Proof.
  intros He Hbody Hc Hmax Hctx Htr Hall.
  assert (Hrun : exists bb,
            loop_run ctx config bb r 0 (Delay config) None w
                     (DoWithRetry r ctx (Some config) w)).
  { unfold DoWithRetry. rewrite He. destruct (body r) as [rd|].
    - unfold io_ReadAll. rewrite (Hbody rd eq_refl).
      eexists. apply retry_loop_run. lia.
    - eexists. apply retry_loop_run. lia. }
  destruct Hrun as [bb Hrun].
  destruct (loop_run_exhausted _ _ _ _ _ _ _ _ _ Hctx Hrun ltac:(lia) ltac:(eauto)
              evs Htr Hall) as (resp & E & Hn & Hl).
  exists resp. rewrite Z.sub_0_r in Hn. auto.
Qed.


(** ** Middleware *)

Lemma Chain_cons (m : Middleware) (ms : list Middleware) (r : Request) (w : Trace) :
  Chain (m :: ms) r w = bind (m r) (Chain ms) w.
Proof. reflexivity. Qed.

Lemma Chain_nested (ms : list Middleware) (r : Request) (w : Trace) :
  Chain ms r w = nested ms r w.
Proof.
  revert r w. induction ms as [|m ms IH]; intros r w; [reflexivity|].
  rewrite Chain_cons. simpl. unfold bind.
  destruct (m r w) as [r' w'|msg w']; [apply IH|reflexivity].
Qed.

Lemma Use_Chain (ms : list Middleware) (r : Request) (w : Trace) :
  Use ms r w = Chain ms r w.
Proof.
  revert r w. induction ms as [|m ms IH]; intros r w; [reflexivity|].
  rewrite Chain_cons. simpl. unfold bind.
  destruct (m r w) as [r' w'|msg w']; [apply IH|reflexivity].
Qed.

Lemma Chain_pure (fs : list (Request -> Request)) (r : Request) (w : Trace) :
  Chain (map pure_middleware fs) r w
  = Ret (fold_right (fun f acc => f acc) r (rev fs)) w.
Proof.
  revert r. induction fs as [|f fs IH]; intros r; [reflexivity|].
  simpl map. rewrite Chain_cons. unfold bind, pure_middleware at 1, ret.
  rewrite IH. simpl rev. now rewrite fold_right_app.
Qed.

Lemma LoggingMiddleware_Some (p : string) (r : Request) (w : Trace) :
  LoggingMiddleware (Some p) r w
  = Ret r (w ++ [EvPrintf (p +:+ method r +:+ " " +:+ url r)]).
Proof. reflexivity. Qed.

Lemma Chain_Logging (prefixes : list string) (r : Request) (w : Trace) :
  Chain (map (fun p => LoggingMiddleware (Some p)) prefixes) r w
  = Ret r (w ++ map (fun p => EvPrintf (p +:+ method r +:+ " " +:+ url r)) prefixes).
Proof.
  revert w. induction prefixes as [|p ps IH]; intros w.
  - simpl. now rewrite app_nil_r.
  - simpl map. rewrite Chain_cons.
    rewrite (bind_Ret _ _ _ _ _ (LoggingMiddleware_Some p r w)).
    rewrite IH. now rewrite <- app_assoc.
Qed.

(** C8. [Chain(m1, ..., mn)(r)] is [mn(...(m2(m1(r))))]: the chain of an
    empty list returns the request, the chain of [m :: ms] runs [m] and hands
    its result (and the trace it left) to the chain of [ms]; so the chain is
    the nested application in list order, for middleware with effects and,
    for middleware without, literally [fn (... (f1 r))]. Each middleware runs
    once and in list order: a chain of logging middleware leaves one line
    per middleware, in the order of the list. [Use] runs the same loop. *)
Theorem Chain_applies_in_list_order :
  (forall r w, Chain [] r w = Ret r w)
  /\ (forall m ms r w, Chain (m :: ms) r w = bind (m r) (Chain ms) w)
  /\ (forall ms r w, Chain ms r w = nested ms r w)
  /\ (forall fs r w,
        Chain (map pure_middleware fs) r w
        = Ret (fold_right (fun f acc => f acc) r (rev fs)) w)
  /\ (forall prefixes r w,
        Chain (map (fun p => LoggingMiddleware (Some p)) prefixes) r w
        = Ret r (w ++ map (fun p => EvPrintf (p +:+ method r +:+ " " +:+ url r)) prefixes))
  /\ (forall ms r w, Use ms r w = Chain ms r w).
Proof.
  split; [reflexivity|]. split; [exact Chain_cons|]. split; [exact Chain_nested|].
  split; [exact Chain_pure|]. split; [exact Chain_Logging | exact Use_Chain].
Qed.

(** ** The interceptor transport *)

(** C6. With a request interceptor configured: if it returns an error,
    [RoundTrip] returns that error with no response and the trace is as it
    was, so the underlying transport was not invoked; if it returns no error,
    the underlying transport answers with a response and the response
    interceptor returns an error, then [RoundTrip] returns that error with no
    response, and it has added exactly the one round trip of the underlying
    transport followed by the closing of the response body. *)
Theorem RoundTrip_interceptor_failures
    (t : InterceptorTransport) (req : http_Request) (w : Trace) (f : RequestInterceptor) :
  t_RequestInterceptor t = Some f ->
  (forall req' e,
      f (req_ctx req) req = (req', Some e) ->
      RoundTrip t req w = Ret (None, Some e) w)
  /\ (forall req' resp g resp' e,
        f (req_ctx req) req = (req', None) ->
        default http_DefaultTransport (Base t) (count is_EvRoundTrip w) req' = inl resp ->
        t_ResponseInterceptor t = Some g ->
        g (req_ctx req') resp = (resp', Some e) ->
        RoundTrip t req w
        = Ret (None, Some e) (w ++ [EvRoundTrip req'; EvClose (rc_id (hr_Body resp'))])).
Proof.
  intros Hf. split.
  - intros req' e Hreq. unfold RoundTrip. now rewrite Hf, Hreq.
  - intros req' resp g resp' e Hreq Hbase Hg Hresp.
    unfold RoundTrip. rewrite Hf, Hreq.
    unfold base_RoundTrip, bind, get_trace, emit, ret.
    replace (match Base t with Some b => b | None => http_DefaultTransport end)
      with (default http_DefaultTransport (Base t)) by now destruct (Base t).
    rewrite Hbase, Hg, Hresp. now rewrite <- app_assoc.
Qed.

End Properties.

(** ** The model at concrete inputs *)

(** C1, refuted as stated: the delay that is waited is not held under
    [MaxDelay]. With [Delay] = [MaxDelay] = 100ms, a multiplier of 2, jitter
    on, random draws of 0.5 and a server that always answers 500, the two
    waits of the three attempts last 115ms each; with jitter off, [Delay] =
    200ms and [MaxDelay] = 100ms, the first wait lasts 200ms. *)
Lemma waited_delay_exceeds_MaxDelay :
  waited (trace_of (DoWithRetry (Ext := busy) demo_request context_Background
                                (Some config_jitter) []))
  = [115 * Millisecond; 115 * Millisecond]
  /\ MaxDelay config_jitter = 100 * Millisecond
  /\ waited (trace_of (DoWithRetry (Ext := busy) demo_request context_Background
                                   (Some config_long_first_delay) []))
     = [200 * Millisecond; 100 * Millisecond]
  /\ MaxDelay config_long_first_delay = 100 * Millisecond.
Proof. repeat split; vm_compute; reflexivity. Qed.





(** The accessors on the response of a failed exchange. *)
Lemma accessors_return_stored_error_witness :
  Bytes (errResponse "request failed: timeout") = ([], Some "request failed: timeout"%string)
  /\ Response_String (errResponse "request failed: timeout")
     = (""%string, Some "request failed: timeout"%string)
  /\ (forall v w,
        JSON (Ext := busy) (errResponse "request failed: timeout") v w
        = Ret (v, Some "request failed: timeout"%string) w)
  /\ BodyReader (errResponse "request failed: timeout")
     = (None, Some "request failed: timeout"%string)
  /\ (forall filename w,
        SaveToFile (Ext := busy) (errResponse "request failed: timeout") filename w
        = Ret (Some "request failed: timeout"%string) w)
  /\ Error (errResponse "request failed: timeout") = Some "request failed: timeout"%string.
Proof.
  apply (accessors_return_stored_error (Ext := busy)
           (errResponse "request failed: timeout") "request failed: timeout").
  reflexivity.
Defined.

(** A refusing request interceptor leaves the trace empty; a refusing
    response interceptor leaves one round trip and the closed body. *)
Lemma RoundTrip_interceptor_failures_witness :
  RoundTrip (Ext := healthy) refuse_request (demo_wire context_Background) []
  = Ret (None, Some "request refused"%string) []
  /\ RoundTrip (Ext := healthy) refuse_response (demo_wire context_Background) []
     = Ret (None, Some "response refused"%string)
           ([] ++ [EvRoundTrip (demo_wire context_Background); EvClose 0]).
Proof.
  split.
  - apply (proj1 (RoundTrip_interceptor_failures (Ext := healthy) refuse_request
                    (demo_wire context_Background) []
                    (fun _ req => (req, Some "request refused"%string)) eq_refl)
             (demo_wire context_Background) "request refused"%string).
    reflexivity.
  - apply (proj2 (RoundTrip_interceptor_failures (Ext := healthy) refuse_response
                    (demo_wire context_Background) []
                    (fun _ req => (req, None)) eq_refl)
             (demo_wire context_Background)
             (mk_http_Response 200 ∅ (mkReadCloser 0 [] None))
             (fun _ resp => (resp, Some "response refused"%string))
             (mk_http_Response 200 ∅ (mkReadCloser 0 [] None))
             "response refused"%string);
      reflexivity.
Defined.

(** The context is cancelled 50ms into the first wait of 100ms: one attempt,
    and the 500 of that attempt comes back with the cancellation as error. *)
Lemma cancelled_wait_ends_the_run_witness :
  EvDone (100 * Millisecond) = EvDone (100 * Millisecond)
  /\ [] = ([] : list Event)
  /\ exists a resp,
      last_attempt [EvDo defaultClient (demo_wire ctx_cancelled_early); EvClose 0;
                    EvAttempt 0 (resp500 0)] a resp
      /\ DoWithRetry (Ext := busy) demo_request ctx_cancelled_early (Some config_five) []
         = Ret (Some (mkResponse (resp_Response resp) (resp_body resp)
                                 (Some "context canceled"%string)))
               ([] ++ [EvDo defaultClient (demo_wire ctx_cancelled_early); EvClose 0;
                       EvAttempt 0 (resp500 0)] ++ [EvDone (100 * Millisecond)])
      /\ count is_EvAttempt [EvDo defaultClient (demo_wire ctx_cancelled_early); EvClose 0;
                            EvAttempt 0 (resp500 0)]
         = S (count is_wait [EvDo defaultClient (demo_wire ctx_cancelled_early); EvClose 0;
                             EvAttempt 0 (resp500 0)])
      /\ count is_EvAttempt
           ([EvDo defaultClient (demo_wire ctx_cancelled_early); EvClose 0;
             EvAttempt 0 (resp500 0)] ++ EvDone (100 * Millisecond) :: [])
         = count is_EvAttempt [EvDo defaultClient (demo_wire ctx_cancelled_early); EvClose 0;
                               EvAttempt 0 (resp500 0)].
Proof.
  apply (cancelled_wait_ends_the_run (Ext := busy) demo_request ctx_cancelled_early
           (Some config_five) []
           [EvDo defaultClient (demo_wire ctx_cancelled_early); EvClose 0;
            EvAttempt 0 (resp500 0)]
           [] (EvDone (100 * Millisecond)) (100 * Millisecond) "context canceled").
  - vm_compute. reflexivity.
  - right. reflexivity.
  - reflexivity.
Defined.

(** A request with a custom client (jar, redirect policy, 5s) and a timeout
    of 2s set with [Timeout]: the exchange is made with a client that has the
    custom transport and the 2s, and neither jar nor redirect policy. *)
Lemma Timeout_executes_on_fresh_client_witness :
  exists rest,
    trace_of (DoContext (Ext := healthy)
                (Timeout (2 * Second)
                   (Client (Some custom_client) demo_request))
                context_Background [])
    = [] ++ EvDo (mk_http_Client (Transport custom_client) None None (2 * Second))
                 (demo_wire context_Background) :: rest
    /\ count is_EvDo rest = 0%nat.
Proof.
  apply (Timeout_executes_on_fresh_client (Ext := healthy)
           (Client (Some custom_client) demo_request)
           context_Background custom_client (2 * Second)
           (demo_wire context_Background) []).
  - reflexivity.
  - reflexivity.
  - reflexivity.
  - vm_compute. reflexivity.
Defined.

(** Three attempts against the busy server under the default predicate:
    every outcome is a 500, so every outcome asks for a retry. *)
Lemma exhausted_retries_witness :
  exists resp,
    DoWithRetry (Ext := busy) demo_request context_Background (Some config_three) []
    = Ret (Some resp) ([] ++ busy_three_attempts)
    /\ count is_EvAttempt busy_three_attempts = Z.to_nat (MaxAttempts config_three)
    /\ last_attempt busy_three_attempts (MaxAttempts config_three - 1) resp.
Proof.
  apply (exhausted_retries_return_last_response (Ext := busy) demo_request
           context_Background config_three defaultClient [] busy_three_attempts).
  - reflexivity.
  - intros rd Hrd. vm_compute in Hrd. discriminate.
  - reflexivity.
  - vm_compute. discriminate.
  - reflexivity.
  - vm_compute. reflexivity.
  - vm_compute. repeat constructor.
Defined.

(** No wait above [MaxDelay] for the schedule 100ms, 200ms, ... capped at 1s. *)
Lemma waits_bounded_without_jitter_witness :
  exists evs,
    trace_of (DoWithRetry (Ext := busy) demo_request context_Background
                          (Some config_five) [])
    = [] ++ evs
    /\ Forall (fun d => d <= MaxDelay config_five) (timers evs)
    /\ Forall (fun d => d <= MaxDelay config_five) (waited evs).
Proof.
  apply (waits_bounded_without_jitter (Ext := busy) demo_request context_Background
           config_five []).
  - reflexivity.
  - vm_compute. discriminate.
Defined.

(** Index 0 of an exponential backoff of base 200ms under a cap of 1s. *)
Lemma ExponentialBackoff_index_0_witness :
  ExponentialBackoff (200 * Millisecond) 3%float Second 0
  = Z.min (200 * Millisecond) Second.
Proof.
  apply (ExponentialBackoff_index_0 (200 * Millisecond) 3%float Second).
  vm_compute. split; discriminate.
Defined.

(** * Further properties of the package *)

(** ** Backoff functions *)

Lemma math_Pow_two_table :
  forallb (fun i => int64_of_float64 (math_Pow 2%float (float64_of_int64 i)) =? 2 ^ i)
          (List.map Z.of_nat (List.seq 0 63)) = true.
Proof. vm_compute. reflexivity. Qed.

(** [math.Pow(2, i)] is exactly [2^i] for the exponents 0..62. *)
Lemma math_Pow_two (i : Z) :
  0 <= i <= 62 ->
  int64_of_float64 (math_Pow 2%float (float64_of_int64 i)) = 2 ^ i.
Proof.
  intros Hi.
  pose proof (proj1 (forallb_forall _ _) math_Pow_two_table i) as H.
  apply Z.eqb_eq, H.
  rewrite <- (Z2Nat.id i) by lia.
  apply List.in_map, List.in_seq. lia.
Qed.

(** X3. With the multiplier 2, a base that is not negative and an attempt
    index in 0..62 for which [base * 2^attempt] fits an int64,
    [ExponentialBackoff] returns [base * 2^attempt] clamped to the cap. *)
Theorem ExponentialBackoff_doubles (base cap attempt : Z) :
  0 <= base ->
  0 <= attempt <= 62 ->
  base * 2 ^ attempt <= int64_max ->
  ExponentialBackoff base 2%float cap attempt = Z.min (base * 2 ^ attempt) cap.
Proof.
  intros Hb Ha Hfit. unfold ExponentialBackoff.
  rewrite (math_Pow_two attempt Ha).
  assert (0 <= base * 2 ^ attempt) by (apply Z.mul_nonneg_nonneg; [lia | apply Z.pow_nonneg; lia]).
  rewrite wrap64_id by (unfold int64_min; lia).
  destruct (Z.gtb_spec (base * 2 ^ attempt) cap); lia.
Qed.

(** X5. When neither [increment * attempt] nor [base + increment * attempt]
    leaves the int64 range, [LinearBackoff] returns [base + increment *
    attempt] clamped to the cap. *)
Theorem LinearBackoff_formula (base increment cap attempt : Z) :
  int64_min <= increment * attempt <= int64_max ->
  int64_min <= base + increment * attempt <= int64_max ->
  LinearBackoff base increment cap attempt = Z.min (base + increment * attempt) cap.
Proof.
  intros H1 H2. unfold LinearBackoff.
  rewrite (wrap64_id _ H1), (wrap64_id _ H2).
  destruct (Z.gtb_spec (base + increment * attempt) cap); lia.
Qed.

(** X6. Whatever their arguments, overflow included, [LinearBackoff] and
    [ExponentialBackoff] never return more than the cap; and an overflow is
    not clamped to the cap: the sum of [LinearBackoff] wraps around, which
    for a base and an increment that are not negative gives a negative
    delay. *)
Theorem backoff_never_exceeds_cap :
  (forall base increment cap attempt, LinearBackoff base increment cap attempt <= cap)
  /\ (forall base multiplier cap attempt,
        ExponentialBackoff base multiplier cap attempt <= cap)
  /\ (forall base increment cap attempt,
        0 <= base <= int64_max -> 0 <= increment * attempt <= int64_max ->
        int64_max < base + increment * attempt -> 0 <= cap ->
        LinearBackoff base increment cap attempt < 0).
Proof.
  split; [|split].
  - intros. unfold LinearBackoff.
    match goal with |- context [?x >? ?y] => destruct (Z.gtb_spec x y) end; lia.
  - intros. unfold ExponentialBackoff.
    match goal with |- context [?x >? ?y] => destruct (Z.gtb_spec x y) end; lia.
  - intros base increment cap attempt Hb Hi Hover Hcap. unfold LinearBackoff.
    rewrite (wrap64_id (increment * attempt)) by (unfold int64_min; lia).
    assert (Hw : wrap64 (base + increment * attempt)
                 = base + increment * attempt - 2 ^ 64).
    { unfold wrap64, int64_max in *.
      replace (base + increment * attempt + 2 ^ 63)
        with (base + increment * attempt - 2 ^ 63 + 1 * 2 ^ 64) by lia.
      rewrite Z.mod_add by lia. rewrite Z.mod_small; lia. }
    rewrite Hw. unfold int64_max in *.
    match goal with |- context [?x >? ?y] => destruct (Z.gtb_spec x y) end; lia.
Qed.

Section Coverage.
Context `{Ext : Externals}.

(** ** Execution of a request *)

(** X7. A response returned by [DoContext] carries an error or the
    [http.Response], never neither: with an error its body is empty, without
    one it has the [http.Response] and the bytes read from its body. The
    default retry predicate therefore answers on it (it does not panic). *)
Theorem DoContext_response_well_formed
    (r : Request) (ctx : Context) (w w' : Trace) (resp : Response) :
  DoContext r ctx w = Ret resp w' ->
  (exists b, defaultRetryIf resp = Some b)
  /\ (resp_err resp = None ->
      exists h, resp_Response resp = Some h /\ resp_body resp = rc_data (hr_Body h))
  /\ (resp_err resp <> None -> resp_body resp = []).
Proof.
  intros E. pose proof (DoContext_outcome_holds r ctx w) as H. rewrite E in H.
  unfold defaultRetryIf.
  inversion H; subst; cbn; repeat split; eauto; try discriminate; try congruence.
Qed.

(** X8. [DoContext] closes the body of the response exactly when the
    exchange gave a response, also when reading that body failed; it closes
    nothing otherwise. *)
Theorem DoContext_closes_body
    (r : Request) (ctx : Context) (w w' : Trace) (resp : Response) :
  DoContext r ctx w = Ret resp w' ->
  exists evs,
    w' = w ++ evs
    /\ match resp_Response resp with
       | Some h => List.filter is_EvClose evs = [EvClose (rc_id (hr_Body h))]
       | None => List.filter is_EvClose evs = []
       end.
Proof.
  intros E. pose proof (DoContext_outcome_holds r ctx w) as H. rewrite E in H.
  inversion H; subst; cbn.
  - exists []. now rewrite app_nil_r.
  - exists []. now rewrite app_nil_r.
  - eexists. split; reflexivity.
  - eexists. split; reflexivity.
  - eexists. split; reflexivity.
Qed.

(** X9. Without a positive timeout, the exchange is made with the client of
    the request itself, cookie jar and redirect policy included. *)
Theorem DoContext_keeps_client_without_timeout
    (r : Request) (ctx : Context) (c : http_Client) (req : http_Request) (w : Trace) :
  err r = None ->
  client r = Some c ->
  timeout r <= 0 ->
  wire_request r ctx = inl req ->
  exists rest,
    trace_of (DoContext r ctx w) = w ++ EvDo c req :: rest
    /\ count is_EvDo rest = 0%nat.
Proof.
  intros He Hc Ht Hreq.
  pose proof (DoContext_outcome_holds r ctx w) as H.
  pose proof (execution_client_Some r c Hc) as Hx.
  assert (Hneg : (0 <? timeout r) = false) by (apply Z.ltb_ge; exact Ht).
  rewrite Hneg in Hx.
  inversion H; subst; cbn; try congruence.
  - exists []. assert (c0 = c) by congruence. assert (req0 = req) by congruence.
    subst. split; reflexivity.
  - exists [EvClose (rc_id (hr_Body resp))].
    assert (c0 = c) by congruence. assert (req0 = req) by congruence.
    subst. split; reflexivity.
  - exists [EvClose (rc_id (hr_Body resp))].
    assert (c0 = c) by congruence. assert (req0 = req) by congruence.
    subst. split; reflexivity.
Qed.

(** X10. A request whose client is nil ([Client(nil)]) panics when it is
    executed, before any exchange, as soon as its wire request can be built;
    [DoWithRetry] panics with it when the body of the request, if it has
    one, is read without error and at least one attempt is allowed (a body
    that cannot be read makes [DoWithRetry] return the error of the read
    before any attempt). When the wire request cannot be built, [DoContext]
    returns the error of that instead. *)
Theorem nil_client_panics
    (r : Request) (ctx : Context) (w : Trace) :
  err r = None ->
  client r = None ->
  (forall req, wire_request r ctx = inl req ->
               DoContext r ctx w = Panic nil_deref w
               /\ (forall config,
                     (forall rd, body r = Some rd -> rd_err rd = None) ->
                     1 <= MaxAttempts config ->
                     DoWithRetry r ctx (Some config) w = Panic nil_deref w))
  /\ (forall e, wire_request r ctx = inr e -> DoContext r ctx w = Ret (errResponse e) w).
Proof.
  intros He Hc.
  pose proof (DoContext_outcome_holds r ctx w) as H.
  assert (Hx : execution_client r = None) by (unfold execution_client; now rewrite Hc).
  split.
  - intros req Hreq.
    assert (HD : DoContext r ctx w = Panic nil_deref w)
      by (inversion H; subst; congruence).
    split; [exact HD|].
    intros config Hb Hmax. unfold DoWithRetry. rewrite He.
    assert (Hlt : (0 <? MaxAttempts config) = true) by (apply Z.ltb_lt; lia).
    destruct (Z.to_nat (MaxAttempts config)) as [|n] eqn:Hn; [lia|].
    destruct (body r) as [rd|] eqn:Hrd.
    + unfold io_ReadAll. rewrite (Hb rd eq_refl).
      cbn [retry_loop]. rewrite Hlt. cbn [negb].
      rewrite (replay_buffered r rd Hrd (Hb rd eq_refl)).
      now rewrite (bind_Panic _ _ _ _ _ HD).
    + cbn [retry_loop replay]. rewrite Hlt. cbn [negb].
      now rewrite (bind_Panic _ _ _ _ _ HD).
  - intros e Hreq. inversion H; subst; congruence.
Qed.

(** ** The retry engine *)

(** A run that enters the loop and returns, returns a response. *)
Lemma loop_run_returns_response (ctx : Context) (config : RetryConfig)
    (bodyBytes : option bytes) r attempt delay resp0 w res :
  loop_run ctx config bodyBytes r attempt delay resp0 w res ->
  attempt < MaxAttempts config ->
  forall v w', res = Ret v w' -> exists resp, v = Some resp.
Proof.
  intros Hrun; induction_on_run Hrun; intros Hlt' v w' E;
    try discriminate; try (injection E as <- _; eauto; fail).
  - lia.
  - apply (IH ltac:(lia) v w' E).
Qed.

(** X11. On a request that is not poisoned and whose body, if any, is read
    without error, [DoWithRetry] returns no response (nil) exactly when
    [MaxAttempts] is not positive; it has then done nothing at all. *)
Theorem DoWithRetry_nil_iff_no_attempts_allowed
    (r : Request) (ctx : Context) (config : RetryConfig) (w : Trace) :
  err r = None ->
  (forall rd, body r = Some rd -> rd_err rd = None) ->
  (MaxAttempts config <= 0 <-> exists w', DoWithRetry r ctx (Some config) w = Ret None w')
  /\ (MaxAttempts config <= 0 -> DoWithRetry r ctx (Some config) w = Ret None w).
Proof.
  intros He Hbody.
  assert (Hzero : MaxAttempts config <= 0 -> DoWithRetry r ctx (Some config) w = Ret None w).
  { intros Hle. unfold DoWithRetry. rewrite He.
    replace (Z.to_nat (MaxAttempts config)) with 0%nat by lia.
    destruct (body r) as [rd|]; [|reflexivity].
    unfold io_ReadAll. now rewrite (Hbody rd eq_refl). }
  split; [|exact Hzero]. split; [eauto|].
  intros [w' E].
  destruct (Z.le_gt_cases (MaxAttempts config) 0) as [|Hpos]; [assumption|exfalso].
  destruct (DoWithRetry_run r ctx (Some config) w) as [[e He'] | [bb Hrun]].
  - congruence.
  - cbn [default] in Hrun.
    assert (Hlt : 0 < MaxAttempts config) by lia.
    destruct (loop_run_returns_response _ _ _ _ _ _ _ _ _ Hrun Hlt None w' E)
      as [resp Hresp].
    discriminate.
Qed.

(** X12. When the body of the request cannot be read into memory,
    [DoWithRetry] returns the error of the read as it is and makes no
    attempt. *)
Theorem DoWithRetry_unreadable_body
    (r : Request) (ctx : Context) (config : option RetryConfig) (w : Trace)
    (rd : Reader) (e : error) :
  err r = None ->
  body r = Some rd ->
  rd_err rd = Some e ->
  DoWithRetry r ctx config w = Ret (Some (errResponse e)) w.
Proof.
  intros He Hb Hrd. unfold DoWithRetry, io_ReadAll. now rewrite He, Hb, Hrd.
Qed.

(** A run that enters the loop and returns has waited once less than it
    has made attempts. *)
Lemma loop_run_waits_between_attempts (ctx : Context) (config : RetryConfig)
    (bodyBytes : option bytes) r attempt delay resp0 w res :
  loop_run ctx config bodyBytes r attempt delay resp0 w res ->
  attempt < MaxAttempts config ->
  exists evs, trace_of res = w ++ evs
              /\ (forall v w', res = Ret v w' ->
                    count is_EvAttempt evs = S (length (waited evs))).
Proof.
  intros Hrun; induction_on_run Hrun; intros Hlt'.
  - lia.
  - apply DoContext_Panic_events in HD as (evs & -> & Hev). exists evs.
    split; [reflexivity | discriminate].
  - apply DoContext_Ret_events in HD as (evs & -> & Hev).
    exists (evs ++ [EvAttempt attempt resp]). split; [cbn; now rewrite app_assoc|].
    discriminate.
  - apply DoContext_Ret_events in HD as (evs & -> & Hev).
    exists (evs ++ [EvAttempt attempt resp]). split; [cbn; now rewrite app_assoc|].
    intros _ _ _. apply attempt_events_counts in Hev as (Ha & _ & _ & _ & Hwt & _).
    rewrite count_app, waited_app, Ha, Hwt. reflexivity.
  - apply DoContext_Ret_events in HD as (evs & -> & Hev).
    apply jittered_events in HJ as (evsJ & -> & HevJ).
    exists (evs ++ [EvAttempt attempt resp] ++ evsJ ++ [EvDone delay']).
    split; [cbn; now rewrite <- !app_assoc|].
    intros _ _ _. apply attempt_events_counts in Hev as (Ha & _ & _ & _ & Hwt & _).
    destruct HevJ as [-> | ->]; rewrite !count_app, !waited_app, Ha, Hwt; reflexivity.
  - apply DoContext_Ret_events in HD as (evs & -> & Hev).
    apply jittered_events in HJ as (evsJ & -> & HevJ).
    destruct IH as (evs' & Htr & Hcount); [lia|].
    exists (evs ++ [EvAttempt attempt resp] ++ evsJ ++ [EvTimer delay'] ++ evs').
    split; [rewrite Htr; now rewrite <- !app_assoc|].
    intros v w' E. specialize (Hcount v w' E).
    apply attempt_events_counts in Hev as (Ha & _ & _ & _ & Hwt & _).
    destruct HevJ as [-> | ->];
      rewrite !count_app, !waited_app, Ha, Hwt, Hcount; cbn; rewrite ?length_app; cbn; lia.
Qed.

(** X13. [DoWithRetry] waits only between attempts: a run that returns has
    either made no attempt and started no timer, or has waited in full once
    less than it has made attempts (no wait follows the last attempt). *)
Theorem DoWithRetry_waits_between_attempts
    (r : Request) (ctx : Context) (config : option RetryConfig) (w : Trace) :
  exists evs,
    trace_of (DoWithRetry r ctx config w) = w ++ evs
    /\ (forall v w', DoWithRetry r ctx config w = Ret v w' ->
          (count is_EvAttempt evs = 0%nat /\ timers evs = [])
          \/ count is_EvAttempt evs = S (length (waited evs))).
Proof.
  destruct (DoWithRetry_run r ctx config w) as [[e He] | [bb Hrun]].
  - rewrite He. exists []. split; [cbn; now rewrite app_nil_r | auto].
  - set (cfg := default DefaultRetryConfig config) in *.
    destruct (Z.le_gt_cases (MaxAttempts cfg) 0) as [Hle|Hpos].
    + inversion Hrun; subst; try lia.
      exists []. split; [cbn; now rewrite app_nil_r | auto].
    + assert (Hlt : 0 < MaxAttempts cfg) by lia.
      destruct (loop_run_waits_between_attempts _ _ _ _ _ _ _ _ _ Hrun Hlt)
        as (evs & Htr & Hcount).
      exists evs. split; [exact Htr|]. intros v w' E. right. exact (Hcount v w' E).
Qed.

(** ** Status of a response *)

(** X14. [IsOK] and [IsError] are never both true; both are false exactly on a
    response without error whose status is below 200 or from 300 to 399; a
    response that carries an error is an error and not OK. *)
Theorem IsOK_IsError_exclusive (r : Response) :
  (IsOK r = true -> IsError r = false)
  /\ (IsOK r = false /\ IsError r = false <->
      resp_err r = None
      /\ exists h, resp_Response r = Some h
                   /\ (StatusCode h < 200 \/ 300 <= StatusCode h < 400))
  /\ (resp_err r <> None -> IsOK r = false /\ IsError r = true).
Proof.
  unfold IsOK, IsError.
  destruct (resp_err r) as [e|]; [|destruct (resp_Response r) as [h|]].
  - split; [discriminate|]. split; [|auto].
    split; [intros [_ H]; discriminate | intros [H _]; discriminate].
  - split; [|split].
    + intros H. apply andb_true_iff in H as [H1 H2]. apply Z.leb_gt. lia.
    + split.
      * intros [H1 H2]. split; [reflexivity|]. exists h. split; [reflexivity|].
        apply andb_false_iff in H1. apply Z.leb_gt in H2. lia.
      * intros [_ (h' & [= <-] & Hs)]. split.
        -- apply andb_false_iff. lia.
        -- apply Z.leb_gt. lia.
    + intros H. now destruct H.
  - split; [discriminate|]. split; [|intros H; now destruct H].
    split; [intros [_ H]; discriminate | intros [_ (h & H & _)]; discriminate].
Qed.

(** X15. [ExpectOK] returns no error exactly when [IsOK] is true, and
    [ExpectStatus] exactly when the response has no error and that status;
    on a response with an error both return that error. On a response with
    neither an error nor an [http.Response], [IsOK] answers false but
    [ExpectOK] and [ExpectStatus] panic. *)
Theorem ExpectOK_iff_IsOK (r : Response) (w : Trace) :
  (ExpectOK r w = Ret None w <-> IsOK r = true)
  /\ (forall status,
        ExpectStatus r status w = Ret None w <->
        resp_err r = None /\ exists h, resp_Response r = Some h /\ StatusCode h = status)
  /\ (forall e status,
        resp_err r = Some e ->
        ExpectOK r w = Ret (Some e) w /\ ExpectStatus r status w = Ret (Some e) w)
  /\ (forall status,
        resp_err r = None -> resp_Response r = None ->
        IsOK r = false
        /\ ExpectOK r w = Panic nil_deref w
        /\ ExpectStatus r status w = Panic nil_deref w).
Proof.
  unfold ExpectOK, ExpectStatus, IsOK, get_StatusCode.
  destruct (resp_err r) as [e|]; [|destruct (resp_Response r) as [h|]]; run_monad.
  - split; [split; discriminate|]. split.
    + intros status. split; [discriminate | intros [H _]; discriminate].
    + split; [intros e' status [= <-]; auto | intros; discriminate].
  - split; [|split; [|split]].
    + destruct ((200 <=? StatusCode h) && (StatusCode h <? 300)); cbn; split;
        congruence.
    + intros status. destruct (Z.eqb_spec (StatusCode h) status) as [Heq|Hne]; cbn.
      * split; [eauto|reflexivity].
      * split; [discriminate | intros [_ (h' & [= <-] & Hs)]; contradiction].
    + intros; discriminate.
    + intros; discriminate.
  - split; [split; discriminate|]. split.
    + intros status. split; [discriminate | intros [_ (h & H & _)]; discriminate].
    + split; [intros; discriminate | auto].
Qed.

(** ** Response accessors *)

(** X16. On the response of a successful [DoContext], the accessors all give
    the bytes that were read from the body of the exchange: [Bytes] returns
    them, [String] is their string, the reader of [BodyReader] reads them
    back, and [SaveToFile] writes them, once, to the named file. *)
Theorem accessors_give_the_body_read
    (r : Request) (ctx : Context) (w w' : Trace) (resp : Response) :
  DoContext r ctx w = Ret resp w' ->
  resp_err resp = None ->
  exists h,
    resp_Response resp = Some h
    /\ Bytes resp = (rc_data (hr_Body h), None)
    /\ (exists s, Response_String resp = (s, None)
                  /\ String.list_byte_of_string s = rc_data (hr_Body h))
    /\ (exists rd, BodyReader resp = (Some rd, None)
                   /\ io_ReadAll rd = (rc_data (hr_Body h), None))
    /\ (forall filename w0,
          SaveToFile resp filename w0
          = Ret (os_WriteFile filename (rc_data (hr_Body h)))
                (w0 ++ [EvWriteFile filename (rc_data (hr_Body h))])).
Proof.
  intros E He.
  pose proof (DoContext_outcome_holds r ctx w) as H. rewrite E in H.
  inversion H; subst; try discriminate.
  exists resp0. unfold Bytes, Response_String, BodyReader, SaveToFile. cbn.
  repeat split.
  - eexists. split; [reflexivity|]. apply String.list_byte_of_string_of_list_byte.
  - eexists. split; reflexivity.
Qed.

(** X17. [MustJSON] panics exactly when [JSON] returns an error: on a response
    that carries an error it panics with that error and decodes nothing; when
    the decoding fails it panics with the wrapped error of the decoder;
    otherwise it returns the decoded target after one decoding. *)
Theorem MustJSON_panics_when_JSON_fails (r : Response) (v : any) (w : Trace) :
  (forall e, resp_err r = Some e -> MustJSON r v w = Panic e w)
  /\ (forall v' e,
        resp_err r = None -> json_Unmarshal (resp_body r) v = (v', Some e) ->
        JSON r v w = Ret (v', Some ("decode JSON: " +:+ e)) (w ++ [EvUnmarshal (resp_body r)])
        /\ MustJSON r v w = Panic ("decode JSON: " +:+ e) (w ++ [EvUnmarshal (resp_body r)]))
  /\ (forall v',
        resp_err r = None -> json_Unmarshal (resp_body r) v = (v', None) ->
        JSON r v w = Ret (v', None) (w ++ [EvUnmarshal (resp_body r)])
        /\ MustJSON r v w = Ret v' (w ++ [EvUnmarshal (resp_body r)])).
Proof.
  unfold MustJSON, JSON. repeat split; intros.
  - rewrite H. reflexivity.
  - rewrite H. run_monad. now rewrite H0.
  - rewrite H. run_monad. now rewrite H0.
  - rewrite H. run_monad. now rewrite H0.
  - rewrite H. run_monad. now rewrite H0.
Qed.

(** ** The builder *)

Lemma poisoned_false (r : Request) : err r = None -> poisoned r = false.
Proof. unfold poisoned. now intros ->. Qed.

(** X18. [BodyJSON] on a request that is not poisoned: when the value is
    marshalled, the body reads as the marshalled bytes and the Content-Type
    is replaced by application/json; when marshalling fails, body and headers
    stay as they were, and the failure surfaces at execution: [DoContext] and
    [DoWithRetry] return it without any exchange. *)
Theorem BodyJSON_outcomes (v : any) (r : Request) :
  err r = None ->
  (forall data,
      json_Marshal v = inl data ->
      err (BodyJSON v r) = None
      /\ (exists rd, body (BodyJSON v r) = Some rd /\ io_ReadAll rd = (data, None))
      /\ headers (BodyJSON v r) !! CanonicalMIMEHeaderKey "Content-Type"
         = Some ["application/json"%string])
  /\ (forall e,
        json_Marshal v = inr e ->
        body (BodyJSON v r) = body r
        /\ headers (BodyJSON v r) = headers r
        /\ (forall ctx w,
              DoContext (BodyJSON v r) ctx w
              = Ret (errResponse ("failed to marshal JSON: " +:+ e)) w)
        /\ (forall ctx config w,
              DoWithRetry (BodyJSON v r) ctx config w
              = Ret (Some (errResponse ("failed to marshal JSON: " +:+ e))) w)).
Proof.
  intros He. unfold BodyJSON. rewrite (poisoned_false r He). split.
  - intros data ->. cbn. split; [exact He|]. split.
    + eexists. split; reflexivity.
    + unfold Header_Set. apply lookup_insert_eq.
  - intros e ->. cbn. repeat split.
Qed.

Lemma Header_Add_lookup (key value : string) (h : http_Header) :
  Header_Add key value h !! CanonicalMIMEHeaderKey key
  = Some (default [] (h !! CanonicalMIMEHeaderKey key) ++ [value]).
Proof. apply lookup_insert_eq. Qed.

Lemma Header_Add_lookup_ne (key value k : string) (h : http_Header) :
  k <> CanonicalMIMEHeaderKey key -> Header_Add key value h !! k = h !! k.
Proof. intros Hk. apply lookup_insert_ne. congruence. Qed.

(** X19. [Header] appends and the authorization setters replace. On a request
    that is not poisoned, two calls of [Header] for one key leave both values
    after the earlier ones, in the order of the calls, and touch no other
    key (so [UserAgentMiddleware] applied twice leaves two User-Agent
    values); whereas after [Auth], [BasicAuth] or [BearerToken] the
    Authorization header holds the one value of that call, whatever it held
    before. *)
Theorem Header_appends_auth_replaces (r : Request) :
  err r = None ->
  (forall key v1 v2,
      headers (Header key v2 (Header key v1 r)) !! CanonicalMIMEHeaderKey key
      = Some (default [] (headers r !! CanonicalMIMEHeaderKey key) ++ [v1; v2])
      /\ forall k, k <> CanonicalMIMEHeaderKey key ->
                   headers (Header key v2 (Header key v1 r)) !! k = headers r !! k)
  /\ (forall ua1 ua2 w,
        exists r', Chain [UserAgentMiddleware ua1; UserAgentMiddleware ua2] r w = Ret r' w
                   /\ headers r' !! CanonicalMIMEHeaderKey "User-Agent"
                      = Some (default [] (headers r !! CanonicalMIMEHeaderKey "User-Agent")
                                ++ [ua1; ua2]))
  /\ (forall authType credentials,
        headers (Auth authType credentials r) !! CanonicalMIMEHeaderKey "Authorization"
        = Some [authType +:+ " " +:+ credentials])
  /\ (forall username password,
        headers (BasicAuth username password r) !! CanonicalMIMEHeaderKey "Authorization"
        = Some ["Basic " +:+ basicAuth username password])
  /\ (forall token,
        headers (BearerToken token r) !! CanonicalMIMEHeaderKey "Authorization"
        = Some ["Bearer " +:+ token]).
Proof.
  intros He. pose proof (poisoned_false r He) as Hp.
  assert (Hadd : forall key v1 v2,
             headers (Header key v2 (Header key v1 r)) !! CanonicalMIMEHeaderKey key
             = Some (default [] (headers r !! CanonicalMIMEHeaderKey key) ++ [v1; v2])).
  { intros key v1 v2. unfold Header. rewrite Hp.
    unfold poisoned, with_headers. cbn [err headers]. rewrite He.
    cbn [headers]. rewrite !Header_Add_lookup. cbn [default from_option id].
    now rewrite <- app_assoc. }
  split; [|split; [|split; [|split]]].
  - intros key v1 v2. split; [apply Hadd|].
    intros k Hk. unfold Header. rewrite Hp.
    unfold poisoned, with_headers. cbn [err headers]. rewrite He.
    cbn [headers]. now rewrite !Header_Add_lookup_ne by exact Hk.
  - intros ua1 ua2 w. eexists. split; [reflexivity|]. apply Hadd.
  - intros. unfold Auth. rewrite Hp. apply lookup_insert_eq.
  - intros. unfold BasicAuth, Auth. rewrite Hp. apply lookup_insert_eq.
  - intros. unfold BearerToken, Auth. rewrite Hp. apply lookup_insert_eq.
Qed.

(** X20. Only [BodyJSON], [WithAuth], [Proxy] and [ProxyURL] can poison a
    request: every other builder operation leaves the error of the builder
    as it is. *)
Theorem setters_never_poison (op : BuilderOp) (r : Request) :
  may_poison op = false -> err (run_op op r) = err r.
Proof.
  intros Hop. destruct op; try discriminate; cbn;
    unfold Method, URL, Client, Timeout, Header, Headers, QueryParam, QueryParams,
      Body, BodyString, BodyBytes, BodyForm, Auth, BasicAuth, BearerToken, Validate;
    destruct (poisoned r); reflexivity.
Qed.

(** X21. As soon as a query parameter is set, the query string written in the
    URL is dropped: two URLs that parse to the same parts but for their
    query give the same wire request. *)
Theorem query_params_replace_the_query_of_the_URL
    (r : Request) (ctx : Context) (urlStr : string) (u1 u2 : url_URL) :
  err r = None ->
  (0 < size (queryParams r))%nat ->
  url_Parse (url r) = inl u1 ->
  url_Parse urlStr = inl u2 ->
  Scheme u1 = Scheme u2 -> Hostname u1 = Hostname u2 -> Port u1 = Port u2 ->
  User u1 = User u2 -> url_rest u1 = url_rest u2 ->
  wire_request (URL urlStr r) ctx = wire_request r ctx.
Proof.
  intros He Hq H1 H2 Hs Hh Hp Hu Hr.
  assert (Hsz : (0 <? size (queryParams r))%nat = true) by (apply Nat.ltb_lt; exact Hq).
  unfold URL. rewrite (poisoned_false r He).
  unfold wire_request, with_url. cbn [url queryParams method body headers].
  rewrite H1, H2, Hsz. now rewrite Hs, Hh, Hp, Hu, Hr.
Qed.

(** ** Composing middleware *)

Lemma Chain_app (a b : list Middleware) (r : Request) (w : Trace) :
  Chain (a ++ b) r w = bind (Chain a r) (Chain b) w.
Proof.
  revert r w. induction a as [|m a IH]; intros r w; [reflexivity|].
  simpl app. unfold bind. rewrite !Chain_cons. unfold bind.
  destruct (m r w) as [r' w'|msg w']; [|reflexivity].
  rewrite IH. reflexivity.
Qed.

(** X22. Chains compose: the chain of a concatenation runs the first list and
    then the second on what the first returned, a chain used as one
    middleware of another chain can be spliced in, two uses in a row are
    one use of the concatenation, and the chain of one middleware is that
    middleware. A panic of a middleware stops all of them alike. *)
Theorem Chain_flattens :
  (forall a b r w, Chain (a ++ b) r w = bind (Chain a r) (Chain b) w)
  /\ (forall a b r w, Chain (Chain a :: b) r w = Chain (a ++ b) r w)
  /\ (forall a b r w, bind (Use a r) (Use b) w = Use (a ++ b) r w)
  /\ (forall m r w, Chain [m] r w = m r w).
Proof.
  split; [exact Chain_app|]. split; [|split].
  - intros a b r w. rewrite Chain_cons, Chain_app. reflexivity.
  - intros a b r w. rewrite (Use_Chain (a ++ b)), Chain_app. unfold bind.
    rewrite (Use_Chain a). destruct (Chain a r w) as [r' w'|msg w']; [|reflexivity].
    apply Use_Chain.
  - intros m r w. rewrite Chain_cons. unfold bind.
    now destruct (m r w).
Qed.

Lemma guarded_Chain (ms : list Middleware) : Forall guarded ms -> guarded (Chain ms).
Proof.
  induction 1 as [|m ms Hm Hms IH]; intros r w Hp.
  - exists []. split; [now rewrite app_nil_r | constructor].
  - destruct (Hm r w Hp) as (evs1 & E1 & F1).
    destruct (IH r (w ++ evs1) Hp) as (evs2 & E2 & F2).
    exists (evs1 ++ evs2). split.
    + rewrite Chain_cons. unfold bind. rewrite E1, E2. now rewrite app_assoc.
    + now apply Forall_app.
Qed.

(** X23. The middleware of the package never revive a poisoned request:
    [LoggingMiddleware] (which still logs it), [UserAgentMiddleware],
    [TimeoutMiddleware] and [HeadersMiddleware] hand it on as it is, and so
    does every chain of such middleware; used on a poisoned request they
    return it unchanged, having at most logged, and its execution with
    [DoWithRetry] returns the stored error without any attempt. *)
Theorem package_middleware_keep_a_poisoned_request :
  (forall logger, guarded (LoggingMiddleware logger))
  /\ (forall ua, guarded (UserAgentMiddleware ua))
  /\ (forall t, guarded (TimeoutMiddleware t))
  /\ (forall hs, guarded (HeadersMiddleware hs))
  /\ (forall ms, Forall guarded ms -> guarded (Chain ms))
  /\ (forall ms r e ctx config w,
        Forall guarded ms -> err r = Some e ->
        exists evs,
          Use ms r w = Ret r (w ++ evs)
          /\ Forall (fun ev => is_EvPrintf ev = true) evs
          /\ DoWithRetry r ctx config (w ++ evs) = Ret (Some (errResponse e)) (w ++ evs)).
Proof.
  assert (Hpure : forall f : Request -> Request,
             (forall r, poisoned r = true -> f r = r) -> guarded (fun r => ret (f r))).
  { intros f Hf r w Hp. exists []. rewrite app_nil_r, (Hf r Hp). split; [reflexivity|constructor]. }
  split; [|split; [|split; [|split; [|split]]]].
  - intros [prefix|] r w Hp.
    + eexists. split; [reflexivity|]. repeat constructor.
    + exists []. rewrite app_nil_r. split; [reflexivity|constructor].
  - intros ua. apply Hpure. intros r Hp. unfold Header. now rewrite Hp.
  - intros t. apply Hpure. intros r Hp. unfold Timeout. now rewrite Hp.
  - intros hs. apply Hpure. intros r Hp. unfold Headers. now rewrite Hp.
  - exact guarded_Chain.
  - intros ms r e ctx config w Hms He.
    destruct (guarded_Chain ms Hms r w (poisoned_true r e He)) as (evs & E & F).
    exists evs. rewrite Use_Chain. split; [exact E|]. split; [exact F|].
    unfold DoWithRetry. now rewrite He.
Qed.

(** ** The interceptor transport *)

(** X25. Without a request interceptor, [RoundTrip] hands the request as it
    is to the underlying transport ([http.DefaultTransport] when [Base] is
    nil), once. An error of that transport is returned as it is, whatever
    the response interceptor; without a response interceptor the response
    of the transport is returned as it is. *)
Theorem RoundTrip_transparent_without_interceptors
    (t : InterceptorTransport) (req : http_Request) (w : Trace) :
  t_RequestInterceptor t = None ->
  (forall e,
      default http_DefaultTransport (Base t) (count is_EvRoundTrip w) req = inr e ->
      RoundTrip t req w = Ret (None, Some e) (w ++ [EvRoundTrip req]))
  /\ (forall resp,
        t_ResponseInterceptor t = None ->
        default http_DefaultTransport (Base t) (count is_EvRoundTrip w) req = inl resp ->
        RoundTrip t req w = Ret (Some resp, None) (w ++ [EvRoundTrip req])).
Proof.
  intros Hf.
  assert (Hbase : match Base t with Some b => b | None => http_DefaultTransport end
                  = default http_DefaultTransport (Base t)) by now destruct (Base t).
  split.
  - intros e He. unfold RoundTrip. rewrite Hf, Hbase.
    unfold base_RoundTrip. run_monad. now rewrite He.
  - intros resp Hg He. unfold RoundTrip. rewrite Hf, Hbase, Hg.
    unfold base_RoundTrip. run_monad. now rewrite He.
Qed.

(** ** Proxies *)

(** X26. [Proxy] drops the transport of the client of the request: the
    transport that is configured is built from no base transport (so from a
    clone of the default one) whatever the client carried, while the
    redirect policy, the cookie jar and the timeout of the client are kept.
    When the transport cannot be built, the request is poisoned and keeps
    its client; so it is when [ProxyURL] is given a URL that does not
    parse. *)
Theorem Proxy_drops_the_transport_of_the_client (config : ProxyConfig) (r : Request) :
  err r = None ->
  (forall tr,
      CreateTransport config None = inl tr ->
      err (Proxy config r) = None
      /\ client (Proxy config r)
         = Some (match client r with
                 | None => mk_http_Client (Some tr) None None 0
                 | Some c => mk_http_Client (Some tr) (CheckRedirect c) (Jar c) (cl_Timeout c)
                 end))
  /\ (forall e,
        CreateTransport config None = inr e ->
        err (Proxy config r) = Some ("configure proxy: " +:+ e)
        /\ client (Proxy config r) = client r)
  /\ (forall proxyURL e,
        url_Parse proxyURL = inr e ->
        err (ProxyURL proxyURL r) = Some ("invalid proxy URL: " +:+ e)
        /\ client (ProxyURL proxyURL r) = client r).
Proof.
  intros He. pose proof (poisoned_false r He) as Hp. split; [|split].
  - intros tr Htr. unfold Proxy. rewrite Hp.
    destruct (client r) as [c|]; unfold getTransport; cbn [Transport];
      rewrite Htr; cbn; now rewrite He.
  - intros e Hcr. unfold Proxy. rewrite Hp.
    destruct (client r) as [c|] eqn:Hc; unfold getTransport; cbn [Transport];
      rewrite Hcr; cbn; now rewrite Hc.
  - intros proxyURL e Hu. unfold ProxyURL, ProxyFromURL. rewrite Hp, Hu. now cbn.
Qed.

(** ** Validators *)

Lemma Any_loop_None (r : Response) (vs : list Validator) (errs : list error) :
  Any_loop r vs errs = None <-> Exists (passes r) vs.
Proof.
  revert errs. induction vs as [|v vs IH]; intros errs; simpl.
  - split; [|intros H; inversion H].
    destruct errs as [|e [|e' errs]]; discriminate.
  - destruct (v r) as [e|] eqn:Hv.
    + rewrite IH. split; [now right|].
      intros H. inversion H as [? ? Hpass|]; subst; [|assumption].
      unfold passes in Hpass. congruence.
    + split; [now left | reflexivity].
Qed.

Lemma Validate_All_None (vs : list Validator) (r : Response) :
  Validate_All vs r = None <-> Forall (passes r) vs.
Proof.
  unfold Validate_All. induction vs as [|v vs IH].
  - split; [constructor | reflexivity].
  - destruct (v r) as [e|] eqn:Hv.
    + split; [discriminate|]. intros H. inversion H as [|? ? Hpass]; subst.
      unfold passes in Hpass. congruence.
    + rewrite IH. split; [intros H; now constructor | intros H; now inversion H].
Qed.

(** X27. [Validate.All] returns the error of the first validator that fails,
    and does not consult the ones after it; it passes exactly when every
    validator passes (so the empty [All] passes). *)
Theorem Validate_All_first_failure (vs : list Validator) (r : Response) :
  (Validate_All vs r = None <-> Forall (passes r) vs)
  /\ (forall e,
        Validate_All vs r = Some e <->
        exists before v after,
          vs = before ++ v :: after /\ Forall (passes r) before /\ v r = Some e).
Proof.
  split; [apply Validate_All_None|].
  unfold Validate_All. induction vs as [|v vs IH2].
  - intros e. split; [discriminate|].
    intros (before & v & after & E & _). now destruct before.
  - destruct (v r) as [e0|] eqn:Hv.
    + intros e. split.
      * intros [= <-]. exists [], v, vs. repeat split; [constructor | exact Hv].
      * intros (before & v' & after & E & Hb & Hv').
        destruct before as [|b before]; simpl in E; injection E as <- ->.
        -- congruence.
        -- inversion Hb as [|? ? Hpass]; subst. unfold passes in Hpass. congruence.
    + intros e. rewrite IH2. split.
      * intros (before & v' & after & -> & Hb & Hv').
        exists (v :: before), v', after. repeat split; [now constructor | exact Hv'].
      * intros (before & v' & after & E & Hb & Hv').
        destruct before as [|b before]; simpl in E; injection E as <- ->.
        -- congruence.
        -- exists before, v', after. repeat split; [now inversion Hb | exact Hv'].
Qed.

Lemma append_empty_r (s : string) : s +:+ "" = s.
Proof.
  induction s as [|c s IH]; [reflexivity|].
  change (String c (s +:+ "") = String c s). now f_equal.
Qed.

(** X28. [Validate.Any] passes exactly when one of the validators passes. So
    the [Any] of no validator fails on every response; the [Any] of one
    validator is that validator, error included; and when several
    validators all fail, the error lists theirs, numbered from 1 in the
    order of the validators. *)
Theorem Validate_Any_passes_iff_one_passes (vs : list Validator) (r : Response) :
  (Validate_Any vs r = None <-> Exists (passes r) vs)
  /\ Validate_Any [] r = Some "all validators failed:"%string
  /\ (forall v, Validate_Any [v] r = v r)
  /\ (forall v1 v2 e1 e2,
        v1 r = Some e1 -> v2 r = Some e2 ->
        Validate_Any [v1; v2] r
        = Some ("all validators failed: [1] " +:+ e1 +:+ " [2] " +:+ e2)).
Proof.
  split; [apply Any_loop_None|]. split; [reflexivity|]. split.
  - intros v. unfold Validate_Any. simpl. now destruct (v r).
  - intros v1 v2 e1 e2 H1 H2. unfold Validate_Any. simpl. rewrite H1, H2. simpl.
    rewrite append_empty_r.
    replace (pretty 1%nat) with "1"%string by (vm_compute; reflexivity).
    replace (pretty 2%nat) with "2"%string by (vm_compute; reflexivity).
    reflexivity.
Qed.

(** X29. [Validate.Not] passes exactly when its validator fails, and its own
    error does not depend on the response. Hence a double negation passes
    when the validator does (but reports the fixed error of [Not], not the
    one of the validator), and the negation of an [Any] passes exactly when
    the [All] of the negations does. *)
Theorem Validate_Not_inverts (r : Response) :
  (forall v, Validate_Not v r = None <-> v r <> None)
  /\ (forall v, Validate_Not (Validate_Not v) r = None <-> v r = None)
  /\ (forall v e, v r = Some e ->
        Validate_Not (Validate_Not v) r
        = Some "expected validation to fail but it passed"%string)
  /\ (forall vs,
        Validate_Not (Validate_Any vs) r = None
        <-> Validate_All (map Validate_Not vs) r = None).
Proof.
  assert (Hnot : forall v, Validate_Not v r = None <-> v r <> None).
  { intros v. unfold Validate_Not. destruct (v r); split; congruence. }
  split; [exact Hnot|]. split; [|split].
  - intros v. rewrite Hnot, Hnot.
    destruct (v r) as [e|]; split; intros H; try discriminate H; try reflexivity;
      [exfalso; apply H; discriminate | intros H'; now apply H'].
  - intros v e Hv. unfold Validate_Not. now rewrite Hv.
  - intros vs. rewrite Hnot.
    rewrite Validate_All_None. unfold Validate_Any. rewrite Any_loop_None.
    rewrite Forall_map. rewrite <- Forall_Exists_neg.
    apply Forall_iff. intros v. unfold passes. symmetry. apply Hnot.
Qed.

End Coverage.

(** ** The further properties at concrete inputs *)

(** Index 3 of the doubling backoff of base 100ms under a cap of 1s. *)
Lemma ExponentialBackoff_doubles_witness :
  ExponentialBackoff (100 * Millisecond) 2%float Second 3
  = Z.min (100 * Millisecond * 2 ^ 3) Second.
Proof.
  apply (ExponentialBackoff_doubles (100 * Millisecond) Second 3).
  - vm_compute. discriminate.
  - split; vm_compute; discriminate.
  - vm_compute. discriminate.
Defined.

(** Index 3 of the linear backoff of base 100ms and step 50ms under 500ms. *)
Lemma LinearBackoff_formula_witness :
  LinearBackoff (100 * Millisecond) (50 * Millisecond) (500 * Millisecond) 3
  = Z.min (100 * Millisecond + 50 * Millisecond * 3) (500 * Millisecond).
Proof.
  apply (LinearBackoff_formula (100 * Millisecond) (50 * Millisecond) (500 * Millisecond) 3).
  - split; vm_compute; discriminate.
  - split; vm_compute; discriminate.
Defined.

(** The greeting of the server, as [DoContext] returns it. *)
Lemma DoContext_response_well_formed_witness :
  (exists b, defaultRetryIf (resp_hello 0) = Some b)
  /\ (resp_err (resp_hello 0) = None ->
      exists h, resp_Response (resp_hello 0) = Some h
                /\ resp_body (resp_hello 0) = rc_data (hr_Body h))
  /\ (resp_err (resp_hello 0) <> None -> resp_body (resp_hello 0) = []).
Proof.
  apply (DoContext_response_well_formed (Ext := office) demo_request context_Background []
           [EvDo defaultClient (demo_wire context_Background); EvClose 0] (resp_hello 0)).
  vm_compute. reflexivity.
Defined.

(** The body of the greeting is closed once. *)
Lemma DoContext_closes_body_witness :
  exists evs,
    [EvDo defaultClient (demo_wire context_Background); EvClose 0] = [] ++ evs
    /\ List.filter is_EvClose evs = [EvClose 0].
Proof.
  apply (DoContext_closes_body (Ext := office) demo_request context_Background []
           [EvDo defaultClient (demo_wire context_Background); EvClose 0] (resp_hello 0)).
  vm_compute. reflexivity.
Defined.

(** Without a timeout the custom client itself makes the exchange. *)
Lemma DoContext_keeps_client_without_timeout_witness :
  exists rest,
    trace_of (DoContext (Ext := healthy) (Client (Some custom_client) demo_request)
                context_Background [])
    = [] ++ EvDo custom_client (demo_wire context_Background) :: rest
    /\ count is_EvDo rest = 0%nat.
Proof.
  apply (DoContext_keeps_client_without_timeout (Ext := healthy)
           (Client (Some custom_client) demo_request) context_Background custom_client
           (demo_wire context_Background) []).
  - reflexivity.
  - reflexivity.
  - vm_compute. discriminate.
  - vm_compute. reflexivity.
Defined.

(** [Client(nil)]: the execution of the demo request panics at once, and so
    does [DoWithRetry] on a request with a body that is read. *)
Lemma nil_client_panics_witness :
  DoContext (Ext := busy) (Client None demo_request) context_Background []
  = Panic nil_deref []
  /\ DoWithRetry (Ext := busy) orphan_request context_Background (Some config_five) []
     = Panic nil_deref [].
Proof.
  destruct (nil_client_panics (Ext := busy) (Client None demo_request) context_Background []
              eq_refl eq_refl) as [H _].
  destruct (nil_client_panics (Ext := busy) orphan_request context_Background []
              eq_refl eq_refl) as [H' _].
  split.
  - apply (H (demo_wire context_Background)). vm_compute. reflexivity.
  - apply (H' (orphan_wire context_Background)).
    + vm_compute. reflexivity.
    + intros rd Hrd. vm_compute in Hrd. injection Hrd as <-. reflexivity.
    + vm_compute. discriminate.
Defined.

(** With [MaxAttempts] = 0 nothing is done and nil is returned. *)
Lemma DoWithRetry_nil_iff_no_attempts_allowed_witness :
  DoWithRetry (Ext := busy) demo_request context_Background (Some config_no_attempts) []
  = Ret None [].
Proof.
  apply (proj2 (DoWithRetry_nil_iff_no_attempts_allowed (Ext := busy) demo_request
                  context_Background config_no_attempts [] eq_refl
                  ltac:(intros rd Hrd; vm_compute in Hrd; discriminate))).
  vm_compute. discriminate.
Defined.

(** A body that cannot be read: its error comes back, unwrapped. *)
Lemma DoWithRetry_unreadable_body_witness :
  DoWithRetry (Ext := busy) (Body (Some broken_reader) demo_request) context_Background
              None []
  = Ret (Some (errResponse "disk error")) [].
Proof.
  apply (DoWithRetry_unreadable_body (Ext := busy) (Body (Some broken_reader) demo_request)
           context_Background None [] broken_reader "disk error"); reflexivity.
Defined.

(** The accessors on the greeting of the server. *)
Lemma accessors_give_the_body_read_witness :
  exists h,
    resp_Response (resp_hello 0) = Some h
    /\ Bytes (resp_hello 0) = (rc_data (hr_Body h), None)
    /\ (exists s, Response_String (resp_hello 0) = (s, None)
                  /\ String.list_byte_of_string s = rc_data (hr_Body h))
    /\ (exists rd, BodyReader (resp_hello 0) = (Some rd, None)
                   /\ io_ReadAll rd = (rc_data (hr_Body h), None))
    /\ (forall filename w0,
          SaveToFile (Ext := office) (resp_hello 0) filename w0
          = Ret (os_WriteFile (Externals := office) filename (rc_data (hr_Body h)))
                (w0 ++ [EvWriteFile filename (rc_data (hr_Body h))])).
Proof.
  apply (accessors_give_the_body_read (Ext := office) demo_request context_Background []
           [EvDo defaultClient (demo_wire context_Background); EvClose 0] (resp_hello 0)).
  - vm_compute. reflexivity.
  - reflexivity.
Defined.

(** A value that is marshalled, and the empty value, which is not. *)
Lemma BodyJSON_outcomes_witness :
  (err (BodyJSON (Ext := office) "{}"%string demo_request) = None
   /\ (exists rd, body (BodyJSON (Ext := office) "{}"%string demo_request) = Some rd
                  /\ io_ReadAll rd = (String.list_byte_of_string "{}", None))
   /\ headers (BodyJSON (Ext := office) "{}"%string demo_request)
        !! CanonicalMIMEHeaderKey (Externals := office) "Content-Type"
      = Some ["application/json"%string])
  /\ (forall ctx config w,
        DoWithRetry (Ext := office) (BodyJSON (Ext := office) ""%string demo_request)
                    ctx config w
        = Ret (Some (errResponse ("failed to marshal JSON: " +:+ "unsupported value"))) w).
Proof.
  destruct (BodyJSON_outcomes (Ext := office) "{}"%string demo_request eq_refl) as [H1 _].
  destruct (BodyJSON_outcomes (Ext := office) ""%string demo_request eq_refl) as [_ H2].
  split.
  - apply (H1 (String.list_byte_of_string "{}")). reflexivity.
  - apply (H2 "unsupported value"%string). reflexivity.
Defined.

(** Two Accept headers are both kept; a bearer token is the one
    Authorization. *)
Lemma Header_appends_auth_replaces_witness :
  headers (Header (Ext := healthy) "Accept" "text/html"
             (Header (Ext := healthy) "Accept" "text/plain" demo_request))
    !! CanonicalMIMEHeaderKey (Externals := healthy) "Accept"
  = Some (default [] (headers demo_request !! CanonicalMIMEHeaderKey (Externals := healthy) "Accept")
            ++ ["text/plain"%string; "text/html"%string])
  /\ headers (BearerToken (Ext := healthy) "t0k3n"
                (BearerToken (Ext := healthy) "old" demo_request))
       !! CanonicalMIMEHeaderKey (Externals := healthy) "Authorization"
     = Some ["Bearer " +:+ "t0k3n"].
Proof.
  split.
  - apply (Header_appends_auth_replaces (Ext := healthy) demo_request eq_refl).
  - apply (Header_appends_auth_replaces (Ext := healthy)
             (BearerToken (Ext := healthy) "old" demo_request) eq_refl).
Defined.

(** [Header] on a request leaves its error as it is. *)
Lemma setters_never_poison_witness :
  err (run_op (Ext := healthy) (OpHeader "Accept" "text/plain") demo_request)
  = err demo_request.
Proof.
  apply (setters_never_poison (Ext := healthy) (OpHeader "Accept" "text/plain")
           demo_request).
  reflexivity.
Defined.

(** With the parameter page=2 set, the queries page=1 and sort=asc written
    in the URL make no difference. *)
Lemma query_params_replace_the_query_of_the_URL_witness :
  wire_request (Ext := office) (URL "example.com?sort=asc" paged_request)
               context_Background
  = wire_request (Ext := office) paged_request context_Background.
Proof.
  apply (query_params_replace_the_query_of_the_URL (Ext := office) paged_request
           context_Background "example.com?sort=asc"
           (mk_url_URL "http" "example.com" "" None "page=1" "")
           (mk_url_URL "http" "example.com" "" None "sort=asc" ""));
    try reflexivity.
  vm_compute. lia.
Defined.

(** Without interceptors the answer of the transport comes back as it is. *)
Lemma RoundTrip_transparent_without_interceptors_witness :
  RoundTrip (Ext := healthy) plain_transport (demo_wire context_Background) []
  = Ret (Some (mk_http_Response 200 ∅ (mkReadCloser 0 [] None)), None)
        ([] ++ [EvRoundTrip (demo_wire context_Background)]).
Proof.
  apply (proj2 (RoundTrip_transparent_without_interceptors (Ext := healthy) plain_transport
                  (demo_wire context_Background) [] eq_refl));
    reflexivity.
Defined.

(** The client behind the proxy keeps the jar, the redirect policy and the
    5s of the custom client, and has the transport built from no base, not
    one built from the transport of the custom client. *)
Lemma Proxy_drops_the_transport_of_the_client_witness :
  err (Proxy (Ext := office) demo_proxy (Client (Some custom_client) demo_request)) = None
  /\ client (Proxy (Ext := office) demo_proxy (Client (Some custom_client) demo_request))
     = Some (mk_http_Client (Some (always 407)) (CheckRedirect custom_client)
                            (Jar custom_client) (cl_Timeout custom_client)).
Proof.
  apply (proj1 (Proxy_drops_the_transport_of_the_client (Ext := office) demo_proxy
                  (Client (Some custom_client) demo_request) eq_refl) (always 407)).
  reflexivity.
Defined.
